(** * example.py: the retrying transaction runner and the funds transfer

    A shallow embedding of [example.py].  The coroutines are read as
    state-passing functions: the session [conn] is threaded through every
    call, exceptions are the [Raised] results, and everything
    [run_transaction] does besides calling the unit of work (entering and
    leaving the transaction block, the explicit rollback, logging, drawing
    the jitter, sleeping) is recorded, in program order, in the event log of
    the [world].

    Python's [int] is [Z].  Python's [float] is binary64: its values are read
    as rationals and every operation rounds to 53 significant bits, to
    nearest, ties to even.  The exponent range is left out of the rounding;
    all the values of line 88 are in the normal range up to attempt 1023, and
    from attempt 1024 on Python cannot convert [2**retry] to a [float] any
    more: there the handler raises [OverflowError] before it rounds anything.
    [time.sleep] is an event. *)

From Stdlib Require Import ZArith QArith Qround Qpower DecimalString DecimalZ.
From Stdlib Require Import Lia Lqa Floats.
From stdpp Require Import base gmap strings list.

Local Open Scope Z_scope.

(** ** Exceptions and results *)

(** The exception classes the program raises or tells apart.  [except
    SerializationError] matches the first constructor, [except Exception]
    every constructor but the last, which stands for the exceptions that
    derive from [BaseException] only ([asyncio.CancelledError],
    [KeyboardInterrupt]). *)
Inductive exn : Type :=
| SerializationError (detail : string)
| ValueError (msg : string)
| RuntimeError (msg : string)
| TypeError (msg : string)
| OtherException (cls msg : string)
| BaseOnly (cls : string).

Definition is_SerializationError (e : exn) : bool :=
  match e with SerializationError _ => true | _ => false end.

Definition is_Exception (e : exn) : bool :=
  match e with BaseOnly _ => false | _ => true end.

(** What a call gives back: a value, or an exception in flight. *)
Inductive outcome (A : Type) : Type :=
| Returned (a : A)
| Raised (e : exn).
Arguments Returned {A} a.
Arguments Raised {A} e.

(** [str(n)] for a Python [int], as the f-strings render it. *)
Definition str_int (n : Z) : string := NilEmpty.string_of_int (Z.to_int n).

(** [range(start, stop)]. *)
Definition range (start stop : Z) : list Z :=
  map (fun i : nat => start + Z.of_nat i) (seq 0 (Z.to_nat (stop - start))).

(** ** The session, as [run_transaction] uses it *)

(** The calls [run_transaction] makes on [conn]: entering the block of
    [async with conn.transaction()], leaving it normally (commit), leaving it
    with an exception (abort), and [conn.rollback()] of line 86, which the
    code calls without [await] and which, like every call, returns or
    raises. *)
Class Session (C : Type) : Type := {
  transaction_enter : C -> C;
  transaction_commit : C -> C;
  transaction_abort : C -> C;
  rollback : C -> outcome unit * C
}.

(** ** Python floats *)

Local Open Scope Q_scope.

(** The exponent of the binade of a positive [x]: [2 ^ e <= x < 2 ^ (e + 1)]. *)
Definition ilog2 (x : Q) : Z :=
  let e := (Z.log2 (Qnum x) - Z.log2 (Zpos (Qden x)))%Z in
  if Qle_bool (2 ^ e) x then e else (e - 1)%Z.

(** The nearest integer, the even one of two that are equally near. *)
Definition rne (q : Q) : Z :=
  let f := Qfloor q in
  match Qcompare (q - inject_Z f) (1 # 2) with
  | Lt => f
  | Gt => (f + 1)%Z
  | Eq => if Z.even f then f else (f + 1)%Z
  end.

(** The float nearest to [x]: [x] is scaled to a significand of 53 bits,
    which is rounded to an integer. *)
Definition round_float (x : Q) : Q :=
  match Qcompare x 0 with
  | Eq => 0
  | Gt => let e := (ilog2 x - 52)%Z in inject_Z (rne (x / 2 ^ e)) * 2 ^ e
  | Lt => let e := (ilog2 (- x) - 52)%Z in - (inject_Z (rne (- x / 2 ^ e)) * 2 ^ e)
  end.

(** [x + y] and [x * y] on floats. *)
Definition fadd (x y : Q) : Q := round_float (x + y).
Definition fmul (x y : Q) : Q := round_float (x * y).

(** The literal [0.1]. *)
Definition float_0_1 : Q := round_float (1 # 10).

(** ** The backoff delay *)

(** Line 88, [(2**retry) * 0.1 * (random.random() + 0.5)]; [u] is the value
    of [random.random()].  The power of two and [0.5] are floats as they
    are. *)
Definition sleep_seconds (retry : Z) (u : Q) : Q :=
  fmul (fmul (2 ^ retry) float_0_1) (fadd u (1 # 2)).

(** The end points of the interval of the delay, [(2**retry) * 0.1 * 0.5] and
    [(2**retry) * 0.1 * 1.5], evaluated as Python evaluates them. *)
Definition delay_low (retry : Z) : Q := fmul (fmul (2 ^ retry) float_0_1) (1 # 2).
Definition delay_high (retry : Z) : Q := fmul (fmul (2 ^ retry) float_0_1) (3 # 2).

(** The largest value [random.random()] returns, [1 - 2 ** -53]. *)
Definition largest_draw : Q := 9007199254740991 # 9007199254740992.

(** The mean delay of attempt [retry] over a finite family of equally likely
    draws; [random.random()] has one: the multiples of [2 ** -53] below 1. *)
Definition total (xs : list Q) : Q := fold_right Qplus 0 xs.
Definition mean (xs : list Q) : Q := total xs / inject_Z (Z.of_nat (length xs)).
Definition expected_sleep (retry : Z) (us : list Q) : Q :=
  mean (map (sleep_seconds retry) us).

(** Line 88 once more, evaluated by the kernel's binary64 numbers, and the
    rational a binary64 number stands for: the rounding above is checked
    against them. *)
Definition sleep_seconds_binary64 (retry : Z) (u : float) : float :=
  (Z.ldexp 1 retry * 0x1.999999999999ap-4 * (u + 0.5))%float.

Definition Q_of_float (f : float) : Q :=
  match Prim2SF f with
  | S754_finite s m e => (if s then -1 else 1) * inject_Z (Zpos m) * 2 ^ e
  | _ => 0
  end.

Local Close Scope Q_scope.

(** ** Events and the world *)

Inductive log_record : Type :=
| GotError (e : exn)
| SerializationBranch
| Sleeping (seconds : Q)
| NonSerializationBranch.

Inductive event : Type :=
| TxEnter
| TxCommit
| TxAbort
| CallOp (retry : Z) (result : outcome unit)
| LogDebug (r : log_record)
| ConnRollback
| TimeSleep (seconds : Q).

(** The state a call of [run_transaction] runs in: the session, the number
    of values drawn so far from the random generator, and the events so
    far. *)
Record world (C : Type) : Type := World {
  conn : C;
  draws : nat;
  log : list event
}.
Arguments World {C} conn draws log.
Arguments conn {C} w.
Arguments draws {C} w.
Arguments log {C} w.

Section Runner.
Context {C : Type} `{Session C}.

(** The unit of work [op]: it is given the session and returns or raises,
    leaving the session in a new state. *)
Variable op : C -> outcome unit * C.
(** The random generator: [random i] is the value of the [i]-th call of
    [random.random()]. *)
Variable random : nat -> Q.

Definition emit (e : event) (w : world C) : world C :=
  World (conn w) (draws w) (log w ++ [e]).

Definition with_conn (f : C -> C) (w : world C) : world C :=
  World (f (conn w)) (draws w) (log w).

Definition random_random (w : world C) : Q * world C :=
  (random (draws w), World (conn w) (S (draws w)) (log w)).

(** [await op(conn)] on attempt [retry]. *)
Definition await_op (retry : Z) (w : world C) : outcome unit * world C :=
  let '(r, c) := op (conn w) in
  (r, emit (CallOp retry r) (World c (draws w) (log w))).

(** The product [(2**retry) * 0.1] of line 88 converts the [int] to a
    [float], which Python refuses from [2**1024] on. *)
Definition int_too_large : exn :=
  OtherException "OverflowError" "int too large to convert to float".

(** The handler of [except SerializationError as e] (lines 81-90).  An
    exception raised in it leaves the loop: no [except] clause of the same
    [try] catches it.  [ConnRollback] records a call of [conn.rollback()]
    that returned. *)
Definition on_serialization_error (retry : Z) (e : exn) (w : world C)
  : outcome unit * world C :=
  let w := emit (LogDebug (GotError e)) w in
  match rollback (conn w) with
  | (Raised x, c) => (Raised x, World c (draws w) (log w))
  | (Returned _, c) =>
      let w := emit ConnRollback (World c (draws w) (log w)) in
      let w := emit (LogDebug SerializationBranch) w in
      if 1024 <=? retry then
        (Raised int_too_large, w)
      else
        let '(u, w) := random_random w in
        let seconds := sleep_seconds retry u in
        let w := emit (LogDebug (Sleeping seconds)) w in
        (Returned tt, emit (TimeSleep seconds) w)
  end.

(** The handler of [except Exception as e] (lines 92-95), up to its
    [raise e]. *)
Definition on_exception (e : exn) (w : world C) : world C :=
  let w := emit (LogDebug (GotError e)) w in
  emit (LogDebug NonSerializationBranch) w.

(** The error of line 97. *)
Definition retries_exhausted (max_retries : Z) : exn :=
  ValueError ("transaction did not succeed after " +:+ str_int max_retries +:+ " retries").

(** The [for retry in ...] loop over the attempts still to make, followed
    by the [raise ValueError] that ends the block. *)
Fixpoint retry_loop (max_retries : Z) (retries : list Z) (w : world C)
  : outcome unit * world C :=
  match retries with
  | [] => (Raised (retries_exhausted max_retries), w)
  | retry :: rest =>
      match await_op retry w with
      | (Returned _, w) => (Returned tt, w)
      | (Raised e, w) =>
          if is_SerializationError e then
            match on_serialization_error retry e w with
            | (Returned _, w) => retry_loop max_retries rest w
            | (Raised x, w) => (Raised x, w)
            end
          else if is_Exception e then
            (Raised e, on_exception e w)
          else
            (Raised e, w)
      end
  end.

(** [run_transaction(conn, op, max_retries)]. *)
Definition run_transaction (max_retries : Z) (w : world C) : outcome unit * world C :=
  let w := emit TxEnter (with_conn transaction_enter w) in
  match retry_loop max_retries (range 1 (max_retries + 1)) w with
  | (Returned _, w) => (Returned tt, emit TxCommit (with_conn transaction_commit w))
  | (Raised e, w) => (Raised e, emit TxAbort (with_conn transaction_abort w))
  end.

(** The session after the [n] attempts [retry], [retry + 1], ... in a row,
    from the session [c] on, each of which ended in a serialization error
    whose handler ran to its end: [conn.rollback()] returned and the delay
    could be computed.  [None] when one of them went otherwise. *)
Fixpoint conflicts_from (retry : Z) (n : nat) (c : C) : option C :=
  match n with
  | O => Some c
  | S n =>
      match op c with
      | (Raised e, c') =>
          if is_SerializationError e then
            match rollback c' with
            | (Returned _, c'') =>
                if 1024 <=? retry then None else conflicts_from (retry + 1) n c''
            | (Raised _, _) => None
            end
          else None
      | (Returned _, _) => None
      end
  end.

(** The same for the first [n] attempts of a call. *)
Definition conflicts (n : nat) (c : C) : option C := conflicts_from 1 n c.

(** A unit of work that raises a serialization error whenever it is called. *)
Definition always_conflicts : Prop :=
  forall c, exists e c', op c = (Raised e, c') /\ is_SerializationError e = true.

End Runner.

(** ** Reading the event log *)

Definition is_call (e : event) : bool :=
  match e with CallOp _ _ => true | _ => false end.
Definition is_sleep (e : event) : bool :=
  match e with TimeSleep _ => true | _ => false end.
Definition is_rollback (e : event) : bool :=
  match e with ConnRollback => true | _ => false end.
Definition is_scope (e : event) : bool :=
  match e with TxEnter | TxCommit | TxAbort => true | _ => false end.

(** A call of the unit of work that ended in a serialization error. *)
Definition is_conflict (e : event) : bool :=
  match e with CallOp _ (Raised x) => is_SerializationError x | _ => false end.

Fixpoint count (p : event -> bool) (es : list event) : nat :=
  match es with
  | [] => 0
  | e :: es => (if p e then 1 else 0) + count p es
  end.


(** What follows a failed call in the log when the handler runs to its
    end: the events of the handler. *)
Definition conflict_events (retry : Z) (e : exn) (u : Q) : list event :=
  [LogDebug (GotError e); ConnRollback; LogDebug SerializationBranch;
   LogDebug (Sleeping (sleep_seconds retry u)); TimeSleep (sleep_seconds retry u)].

Definition fatal_events (e : exn) : list event :=
  if is_Exception e then [LogDebug (GotError e); LogDebug NonSerializationBranch] else [].

(** ** The accounts table and [transfer_funds] *)

(** The statements [transfer_funds] sends. *)
Inductive statement : Type :=
| SelectBalance (id : string)
| UpdateBalanceMinus (amount : Z) (id : string)
| UpdateBalancePlus (amount : Z) (id : string).

(** Modelled from the spec: the session and the cluster behind it, which are
    not part of the repository.  The table [accounts] maps an id to its
    balance ([None] for NULL); [snapshots] holds, for every open transaction
    block, the table as it was when the block was entered; [issued] lists the
    statements sent so far. *)
Record connection : Type := Connection {
  accounts : gmap string (option Z);
  snapshots : list (gmap string (option Z));
  issued : list statement
}.

(** [conn.rollback] on the connection [asyncpg.connect] returns: the class
    has no attribute of that name (a transaction of asyncpg is rolled back
    through the object [conn.transaction()] returns), so that evaluating
    [conn.rollback] on line 86 raises before anything is called. *)
Definition no_rollback : exn :=
  OtherException "AttributeError" "'Connection' object has no attribute 'rollback'".

(** Modelled from the spec: the block commits on normal exit and is rolled
    back when left with an exception.  [rollback] is not from the spec, which
    has it abandon the writes of the current transaction: on the connection
    of the program it raises [no_rollback] and changes nothing. *)
#[export] Instance connection_session : Session connection := {|
  transaction_enter c :=
    Connection (accounts c) (accounts c :: snapshots c) (issued c);
  transaction_commit c :=
    Connection (accounts c) (tail (snapshots c)) (issued c);
  transaction_abort c :=
    Connection (default (accounts c) (head (snapshots c))) (tail (snapshots c)) (issued c);
  rollback c := (Raised no_rollback, c)
|}.

(** The column [balance] is INT (line 21), which CockroachDB, the database
    the docstring of [example.py] names and whose UPSERT line 24 uses, stores
    in 64 bits; the parameter [$1] of the two UPDATEs has the same type. *)
Definition int_min : Z := - 2 ^ 63.
Definition int_max : Z := 2 ^ 63 - 1.

Definition is_int (n : Z) : bool := (int_min <=? n) && (n <=? int_max).

(** asyncpg refuses to encode an argument outside the type of its parameter,
    before the statement is run; the cluster refuses a result outside the
    type of the column, and writes nothing. *)
Definition invalid_argument (n : Z) : exn :=
  OtherException "DataError"
    ("invalid input for query argument $1: " +:+ str_int n +:+ " (value out of int64 range)").

Definition integer_out_of_range : exn :=
  OtherException "NumericValueOutOfRangeError" "integer out of range".

(** Whether [balance + delta] fits the column for the row an UPDATE matches;
    a missing row and a NULL balance get no new value. *)
Definition fits (delta : Z) (row : option (option Z)) : bool :=
  match row with
  | Some (Some balance) => is_int (balance + delta)
  | _ => true
  end.

(** [conn.fetchrow("SELECT balance FROM accounts WHERE id = $1", id)]: the
    row, or [None] when there is none. *)
Definition fetchrow_balance (id : string) (c : connection)
  : option (option Z) * connection :=
  (accounts c !! id,
   Connection (accounts c) (snapshots c) (issued c ++ [SelectBalance id])).

(** [conn.execute("UPDATE accounts SET balance = balance - $1 WHERE id = $2", amount, id)]. *)
Definition execute_balance_minus (amount : Z) (id : string) (c : connection)
  : outcome unit * connection :=
  if negb (is_int amount) then
    (Raised (invalid_argument amount), c)
  else if fits (- amount) (accounts c !! id) then
    (Returned tt,
     Connection (alter (option_map (fun balance => balance - amount)) id (accounts c))
       (snapshots c) (issued c ++ [UpdateBalanceMinus amount id]))
  else
    (Raised integer_out_of_range,
     Connection (accounts c) (snapshots c) (issued c ++ [UpdateBalanceMinus amount id])).

(** [conn.execute("UPDATE accounts SET balance = balance + $1 WHERE id = $2", amount, id)]. *)
Definition execute_balance_plus (amount : Z) (id : string) (c : connection)
  : outcome unit * connection :=
  if negb (is_int amount) then
    (Raised (invalid_argument amount), c)
  else if fits amount (accounts c !! id) then
    (Returned tt,
     Connection (alter (option_map (fun balance => balance + amount)) id (accounts c))
       (snapshots c) (issued c ++ [UpdateBalancePlus amount id]))
  else
    (Raised integer_out_of_range,
     Connection (accounts c) (snapshots c) (issued c ++ [UpdateBalancePlus amount id])).

(** The message of line 47; the row prints as asyncpg prints a record. *)
Definition insufficient_funds (frm : string) (balance amount : Z) : exn :=
  RuntimeError ("insufficient funds in " +:+ frm +:+ ": have <Record balance="
                +:+ str_int balance +:+ ">, need " +:+ str_int amount).

(** [transfer_funds(conn, frm, to, amount)].  Subscripting a missing row and
    comparing a NULL balance with an [int] raise [TypeError]; an UPDATE that
    raises ends the call where it is. *)
Definition transfer_funds (frm to : string) (amount : Z) (c : connection)
  : outcome unit * connection :=
  let '(from_balance, c) := fetchrow_balance frm c in
  match from_balance with
  | None => (Raised (TypeError "'NoneType' object is not subscriptable"), c)
  | Some None =>
      (Raised (TypeError "'<' not supported between instances of 'NoneType' and 'int'"), c)
  | Some (Some balance) =>
      if balance <? amount then
        (Raised (insufficient_funds frm balance amount), c)
      else
        match execute_balance_minus amount frm c with
        | (Raised e, c) => (Raised e, c)
        | (Returned _, c) => execute_balance_plus amount to c
        end
  end.

(** ** Sessions and units of work to run the code on *)

(** A test double with a [rollback] method: the session is the number of
    calls of the unit of work so far, which no call on the session changes. *)
Definition counting_session : Session nat := {|
  transaction_enter calls := calls;
  transaction_commit calls := calls;
  transaction_abort calls := calls;
  rollback calls := (Returned tt, calls)
|}.

(** A unit of work that raises a serialization error on every call. *)
Definition conflict_always (calls : nat) : outcome unit * nat :=
  (Raised (SerializationError "restart transaction"), S calls).

(** A unit of work that raises a serialization error on its first [k - 1]
    calls and then does [then_]. *)
Definition conflict_until (k : nat) (then_ : outcome unit) (calls : nat)
  : outcome unit * nat :=
  (if (S calls <? k)%nat then Raised (SerializationError "restart transaction") else then_,
   S calls).

(** The table of [create_accounts], with readable ids. *)
Definition two_accounts : connection :=
  Connection (<["alice" := Some 1000]> (<["bob" := Some 250]> ∅)) [] [].

(** A table in which the balance of one account is the largest the column
    holds. *)
Definition full_account : connection :=
  Connection (<["alice" := Some 1000]> (<["bob" := Some int_max]> ∅)) [] [].

(** A transfer on a contended cluster: the cluster refuses its SELECT with a
    serialization error, every time. *)
Definition refused_transfer (frm to : string) (amount : Z) (c : connection)
  : outcome unit * connection :=
  (Raised (SerializationError "restart transaction"),
   Connection (accounts c) (snapshots c) (issued c ++ [SelectBalance frm])).

(** The same, refused only while no statement has been sent on the
    connection: a second call would go through. *)
Definition transfer_refused_once (frm to : string) (amount : Z) (c : connection)
  : outcome unit * connection :=
  match issued c with
  | [] => refused_transfer frm to amount c
  | _ => transfer_funds frm to amount c
  end.

(** ** Reading the table and the log further *)

(** The sum of the balances of the table, NULL counting for nothing. *)
Definition total_balance (table : gmap string (option Z)) : Z :=
  map_fold (fun _ balance acc => default 0 balance + acc) 0 table.

(** A unit of work that opens and closes no transaction block of its own:
    it leaves the stack of open blocks as it found it. *)
Definition keeps_snapshots (op : connection -> outcome unit * connection) : Prop :=
  forall c, snapshots (snd (op c)) = snapshots c.

(** The seconds slept in all over the events [es]. *)
Fixpoint slept (es : list event) : Q :=
  match es with
  | [] => 0%Q
  | TimeSleep seconds :: es => (seconds + slept es)%Q
  | _ :: es => slept es
  end.

(** ** The other database calls *)

(** [create_accounts(conn)]; [id1] and [id2] are the values of the two calls
    of [uuid.uuid4()].  CREATE TABLE IF NOT EXISTS leaves an existing table
    as it is, and the UPSERT writes the two rows over whatever the two ids
    held.  The status message is only logged and is left out, as are these
    statements in [issued]. *)
Definition create_accounts (id1 id2 : string) (c : connection) : list string * connection :=
  ([id1; id2],
   Connection (<[id2 := Some 250]> (<[id1 := Some 1000]> (accounts c)))
     (snapshots c) (issued c)).

(** [delete_accounts(conn)]: DELETE FROM accounts. *)
Definition delete_accounts (c : connection) : connection :=
  Connection ∅ (snapshots c) (issued c).

(** [conn.fetch("SELECT id, balance FROM accounts")]: the rows, in the order
    the table lists them. *)
Definition fetch_accounts (c : connection) : list (string * option Z) :=
  map_to_list (accounts c).

(** The format [{1:2d}]: the decimal digits, right-aligned in a field of two
    characters. *)
Definition format_2d (n : Z) : string :=
  if (String.length (str_int n) <? 2)%nat then " " +:+ str_int n else str_int n.

(** The two lines [print_balances] prints: the header for the time
    [time.asctime()] gives, and the line of a row. *)
Definition balances_header (asctime : string) : string :=
  "Balances at " +:+ asctime +:+ ":".

Definition balance_line (id : string) (balance : Z) : string :=
  "account id: " +:+ id +:+ "  balance: $" +:+ format_2d balance.

(** The loop of [print_balances] over the rows, writing to the standard
    output [out]; formatting a NULL balance with [2d] raises [TypeError]. *)
Fixpoint print_rows (rows : list (string * option Z)) (out : list string)
  : outcome unit * list string :=
  match rows with
  | [] => (Returned tt, out)
  | (id, Some balance) :: rows => print_rows rows (out ++ [balance_line id balance])
  | (id, None) :: _ =>
      (Raised (TypeError "unsupported format string passed to NoneType.__format__"), out)
  end.

(** [print_balances(conn)]: the header is printed before the rows are
    fetched. *)
Definition print_balances (asctime : string) (c : connection) (out : list string)
  : outcome unit * list string :=
  print_rows (fetch_accounts c) (out ++ [balances_header asctime]).

(** ** The command line and [main] *)

(** What [parser.parse_args()] finds on the command line: whether [-v] is
    there, and the positional argument, if there is one. *)
Record cmdline : Type := Cmdline {
  flag_verbose : bool;
  arg_dsn : option string
}.

(** The options [parse_cmdline] returns; its last check leaves no [dsn] that
    is [None]. *)
Record options : Type := Options {
  verbose : bool;
  dsn : string
}.

(** [parse_cmdline()]: the default of [dsn] is read from the environment,
    and [parser.error] leaves the program with [SystemExit]. *)
Definition parse_cmdline (argv : cmdline) (environ : gmap string string) : outcome options :=
  match arg_dsn argv with
  | Some url => Returned (Options (flag_verbose argv) url)
  | None =>
      match environ !! "DATABASE_URL" with
      | Some url => Returned (Options (flag_verbose argv) url)
      | None => Raised (BaseOnly "SystemExit")
      end
  end.

(** [except ValueError]. *)
Definition is_ValueError (e : exn) : bool :=
  match e with ValueError _ => true | _ => false end.

(** [ids.pop()]: the last element and the list without it. *)
Definition pop {A} (l : list A) : option (A * list A) :=
  match last l with
  | Some x => Some (x, removelast l)
  | None => None
  end.

(** What [main] logs itself. *)
Inductive main_record : Type :=
| FatalMessage (msg : string)
| FatalException (e : exn)
| DebugRunFailed (e : exn)
| DebugGotError (e : exn).

(** The state of the program at the end of [main]: the variable [conn]
    ([None] while it is unbound), the standard output, what [main] logged,
    the events of [run_transaction], and whether the connection was closed. *)
Record process : Type := Process {
  conn_var : option connection;
  stdout : list string;
  records : list main_record;
  runner_log : list event;
  closed : bool
}.

(** The handler of [except Exception as e] of [main] (lines 137-140): it
    logs and returns. *)
Definition on_main_exception (e : exn) (p : process) : outcome unit * process :=
  if is_Exception e then
    (Returned tt,
     Process (conn_var p) (stdout p)
       (records p ++ [FatalMessage "database connection failed"; FatalException e])
       (runner_log p) (closed p))
  else
    (Raised e, p).

(** The [finally] clause of [main] (lines 142-143): reading [conn] while it
    is unbound raises [UnboundLocalError], in place of whatever [main] was
    about to do. *)
Definition main_finally (r : outcome unit * process) : outcome unit * process :=
  match conn_var (snd r) with
  | Some _ =>
      (fst r, Process (conn_var (snd r)) (stdout (snd r)) (records (snd r))
                (runner_log (snd r)) true)
  | None =>
      (Raised (OtherException "UnboundLocalError"
                 "cannot access local variable 'conn' where it is not associated with a value"),
       snd r)
  end.

Section Main.

(** What [main] meets outside the program: [asyncpg.connect], the two
    values of [uuid.uuid4()], the two values of [time.asctime()] and the
    random generator. *)
Variable connect : string -> outcome connection.
Variables id1 id2 : string.
Variables asctime1 asctime2 : string.
Variable random : nat -> Q.

(** Lines 134-136, after the transaction. *)
Definition main_after (c : connection) (out : list string) (recs : list main_record)
    (evs : list event) : outcome unit * process :=
  match print_balances asctime2 c out with
  | (Raised e, out) => (Raised e, Process (Some c) out recs evs false)
  | (Returned _, out) => (Returned tt, Process (Some (delete_accounts c)) out recs evs false)
  end.

(** The body of the [try] of [main] (lines 110-136).  The SET statement of
    line 114 touches no table and is left out. *)
Definition main_body (opt : options) : outcome unit * process :=
  match connect (dsn opt) with
  | Raised e => (Raised e, Process None [] [] [] false)
  | Returned c =>
      let '(ids, c) := create_accounts id1 id2 c in
      match print_balances asctime1 c [] with
      | (Raised e, out) => (Raised e, Process (Some c) out [] [] false)
      | (Returned _, out) =>
          let amount := 100 in
          match pop ids with
          | None =>
              (Raised (OtherException "IndexError" "pop from empty list"),
               Process (Some c) out [] [] false)
          | Some (toId, ids) =>
              match pop ids with
              | None =>
                  (Raised (OtherException "IndexError" "pop from empty list"),
                   Process (Some c) out [] [] false)
              | Some (fromId, _) =>
                  match run_transaction (transfer_funds fromId toId amount) random 3
                          (World c 0%nat []) with
                  | (Returned _, w) => main_after (conn w) out [] (log w)
                  | (Raised e, w) =>
                      if is_ValueError e then
                        main_after (conn w) out [DebugRunFailed e] (log w)
                      else if is_Exception e then
                        (Raised e, Process (Some (conn w)) out [DebugGotError e] (log w) false)
                      else
                        (Raised e, Process (Some (conn w)) out [] (log w) false)
                  end
              end
          end
      end
  end.

(** [main()]. *)
Definition main (argv : cmdline) (environ : gmap string string)
  : outcome unit * process :=
  match parse_cmdline argv environ with
  | Raised e => (Raised e, Process None [] [] [] false)
  | Returned opt =>
      main_finally
        match main_body opt with
        | (Returned u, p) => (Returned u, p)
        | (Raised e, p) => on_main_exception e p
        end
  end.

End Main.

(** The lines [print_balances] prints for the rows of a table without NULL. *)
Definition balance_lines (table : gmap string (option Z)) : list string :=
  map (fun row : string * option Z => balance_line (fst row) (default 0 (snd row)))
    (map_to_list table).

(** A table in which no balance is NULL. *)
Definition no_null (table : gmap string (option Z)) : Prop :=
  forall id, table !! id <> Some None.

(** A table with a row whose balance is NULL. *)
Definition null_account : connection :=
  Connection (<["carol" := None]> (<["bob" := Some 250]> ∅)) [] [].

(** A cluster that accepts every connection and has no table yet, one whose
    table has a row left with a NULL balance, and one that accepts no
    connection. *)
Definition connect_fresh (url : string) : outcome connection :=
  Returned (Connection ∅ [] []).

Definition connect_null (url : string) : outcome connection :=
  Returned null_account.

Definition connect_refused (url : string) : outcome connection :=
  Raised (OtherException "ConnectionRefusedError" "connection refused").

(** * Facts *)

Lemma count_app p (xs ys : list event) :
  count p (xs ++ ys) = (count p xs + count p ys)%nat.
Proof. induction xs as [|x xs IH]; simpl; [reflexivity | rewrite IH; lia]. Qed.




Lemma fatal_events_counts e :
  count is_call (fatal_events e) = 0%nat /\
  count is_sleep (fatal_events e) = 0%nat /\
  count is_rollback (fatal_events e) = 0%nat /\
  count is_scope (fatal_events e) = 0%nat /\
  count is_conflict (fatal_events e) = 0%nat.
Proof. unfold fatal_events; destruct (is_Exception e); simpl; auto. Qed.

Lemma range_length (start stop : Z) : length (range start stop) = Z.to_nat (stop - start).
Proof. unfold range. rewrite length_map, length_seq. reflexivity. Qed.

Lemma range_nil (start stop : Z) : stop <= start -> range start stop = [].
Proof.
  intros Hle. unfold range.
  replace (Z.to_nat (stop - start)) with 0%nat by lia. reflexivity.
Qed.

Lemma range_lookup (start stop : Z) (i : nat) :
  (i < Z.to_nat (stop - start))%nat ->
  range start stop !! i = Some (start + Z.of_nat i).
Proof.
  intros Hi. unfold range. rewrite list_lookup_fmap.
  rewrite lookup_seq_lt by assumption. reflexivity.
Qed.

(** ** Rounding *)

Local Open Scope Q_scope.

Lemma pow2_pos (e : Z) : 0 < 2 ^ e.
Proof. apply Qpower_0_lt. reflexivity. Qed.

Lemma pow2_le (a b : Z) : (a <= b)%Z -> 2 ^ a <= 2 ^ b.
Proof. intros. apply Qpower_le_compat_l; [assumption | discriminate]. Qed.

Lemma pow2_lt (a b : Z) : (a < b)%Z -> 2 ^ a < 2 ^ b.
Proof. intros. apply Qpower_lt_compat_l; [assumption | reflexivity]. Qed.

Lemma pow2_succ (e : Z) : 2 ^ (e + 1) == 2 * 2 ^ e.
Proof. rewrite Qpower_plus by discriminate. rewrite Qpower_1_r. ring. Qed.

Lemma pow2_lt_inv (a b : Z) : 2 ^ a < 2 ^ b -> (a < b)%Z.
Proof. intros. eapply Qpower_lt_compat_l_inv; [eassumption | reflexivity]. Qed.

Lemma pow2_inject (a : Z) : (0 <= a)%Z -> 2 ^ a == inject_Z (2 ^ a).
Proof. intros. rewrite Zpower_Qpower by assumption. reflexivity. Qed.

Lemma Qdiv_inject_lt (n d m k : Z) :
  (0 < d)%Z -> (0 < k)%Z -> (n * k < m * d)%Z ->
  inject_Z n / inject_Z d < inject_Z m / inject_Z k.
Proof.
  intros Hd Hk Hlt.
  assert (Hdq : 0 < inject_Z d) by (rewrite <- (Zlt_Qlt 0); exact Hd).
  assert (Hkq : 0 < inject_Z k) by (rewrite <- (Zlt_Qlt 0); exact Hk).
  apply Qlt_shift_div_l; [exact Hkq |].
  setoid_replace (inject_Z n / inject_Z d * inject_Z k)
    with (inject_Z n * inject_Z k / inject_Z d) using relation Qeq
    by (field; intros Hz; rewrite Hz in Hdq; discriminate).
  apply Qlt_shift_div_r; [exact Hdq |].
  rewrite <- !inject_Z_mult, <- Zlt_Qlt. exact Hlt.
Qed.

(** [x] lies strictly between these two powers of two. *)
Lemma ilog2_rough (x : Q) :
  0 < x ->
  2 ^ (Z.log2 (Qnum x) - Z.log2 (Zpos (Qden x)) - 1) < x /\
  x < 2 ^ (Z.log2 (Qnum x) - Z.log2 (Zpos (Qden x)) + 1).
Proof.
  intros Hx. destruct x as [n d]. unfold Qlt in Hx. simpl in Hx. simpl Qnum. simpl Qden.
  assert (Hn : (0 < n)%Z) by lia.
  pose proof (Z.log2_spec n Hn) as [Hn1 Hn2].
  pose proof (Z.log2_spec (Zpos d) (Pos2Z.is_pos d)) as [Hd1 Hd2].
  pose proof (Z.log2_nonneg n) as Ha. pose proof (Z.log2_nonneg (Zpos d)) as Hb.
  set (a := Z.log2 n) in *. set (b := Z.log2 (Zpos d)) in *.
  assert (Hpa : (0 < 2 ^ a)%Z) by (apply Z.pow_pos_nonneg; lia).
  assert (Hpb : (0 < 2 ^ b)%Z) by (apply Z.pow_pos_nonneg; lia).
  rewrite (Qmake_Qdiv n d).
  replace (a - b - 1)%Z with (a - (b + 1))%Z by lia.
  replace (a - b + 1)%Z with ((a + 1) - b)%Z by lia.
  rewrite !Qpower_minus by discriminate.
  rewrite (pow2_inject a), (pow2_inject (b + 1)), (pow2_inject (a + 1)), (pow2_inject b) by lia.
  unfold Z.succ in *. rewrite !Z.pow_add_r in * by lia. change (2 ^ 1)%Z with 2%Z in *.
  split; apply Qdiv_inject_lt; try lia; nia.
Qed.

Lemma ilog2_spec (x : Q) : 0 < x -> 2 ^ ilog2 x <= x /\ x < 2 ^ (ilog2 x + 1).
Proof.
  intros Hx. destruct (ilog2_rough x Hx) as [Hlo Hhi]. unfold ilog2.
  destruct (Qle_bool _ x) eqn:Hb.
  - apply Qle_bool_iff in Hb. split; assumption.
  - split; [apply Qlt_le_weak, Hlo |].
    replace (_ - 1 + 1)%Z with (Z.log2 (Qnum x) - Z.log2 (Z.pos (Qden x)))%Z by lia.
    apply Qnot_le_lt. intros Hle. apply Qle_bool_iff in Hle. congruence.
Qed.

Lemma ilog2_unique (x : Q) (e : Z) : 2 ^ e <= x -> x < 2 ^ (e + 1) -> ilog2 x = e.
Proof.
  intros Hlo Hhi.
  assert (Hx : 0 < x) by (eapply Qlt_le_trans; [apply (pow2_pos e) | exact Hlo]).
  destruct (ilog2_spec x Hx) as [Hlo' Hhi'].
  assert (e < ilog2 x + 1)%Z by (apply pow2_lt_inv; eapply Qle_lt_trans; eassumption).
  assert (ilog2 x < e + 1)%Z by (apply pow2_lt_inv; eapply Qle_lt_trans; eassumption).
  lia.
Qed.

Lemma ilog2_mono (x y : Q) : 0 < x -> x <= y -> (ilog2 x <= ilog2 y)%Z.
Proof.
  intros Hx Hle.
  assert (Hy : 0 < y) by (eapply Qlt_le_trans; eassumption).
  destruct (ilog2_spec x Hx) as [Hlo _]. destruct (ilog2_spec y Hy) as [_ Hhi].
  assert (ilog2 x < ilog2 y + 1)%Z; [| lia].
  apply pow2_lt_inv. eapply Qle_lt_trans; [exact Hlo |]. eapply Qle_lt_trans; eassumption.
Qed.

Lemma rne_bounds (q : Q) : (Qfloor q <= rne q <= Qfloor q + 1)%Z.
Proof.
  unfold rne. destruct (Qcompare _ _); [destruct (Z.even _) | |]; lia.
Qed.

Lemma rne_comp (q q' : Q) : q == q' -> rne q = rne q'.
Proof.
  intros Heq. unfold rne. rewrite (Qfloor_comp _ _ Heq).
  assert (Hd : q - inject_Z (Qfloor q') == q' - inject_Z (Qfloor q'))
    by (rewrite Heq; reflexivity).
  rewrite (Qcompare_comp _ _ Hd _ _ (Qeq_refl (1 # 2))). reflexivity.
Qed.

Lemma rne_inject_Z (z : Z) : rne (inject_Z z) = z.
Proof.
  unfold rne. rewrite Qfloor_Z.
  destruct (Qcompare_spec (inject_Z z - inject_Z z) (1 # 2)) as [Hc | Hc | Hc].
  - exfalso. lra.
  - reflexivity.
  - exfalso. lra.
Qed.

Lemma rne_mono (q q' : Q) : q <= q' -> (rne q <= rne q')%Z.
Proof.
  intros Hle. pose proof (Qfloor_resp_le _ _ Hle) as Hf.
  pose proof (rne_bounds q) as Hb. pose proof (rne_bounds q') as Hb'.
  destruct (Z.eq_dec (Qfloor q) (Qfloor q')) as [Heq | Hne]; [| lia].
  unfold rne in *. rewrite <- Heq in *.
  destruct (Qcompare_spec (q - inject_Z (Qfloor q)) (1 # 2)) as [Hc | Hc | Hc];
    destruct (Qcompare_spec (q' - inject_Z (Qfloor q)) (1 # 2)) as [Hc' | Hc' | Hc'];
    try lia; try (exfalso; lra); destruct (Z.even (Qfloor q)); lia.
Qed.

Lemma round_float_pos (x : Q) :
  0 < x ->
  round_float x = inject_Z (rne (x / 2 ^ (ilog2 x - 52))) * 2 ^ (ilog2 x - 52).
Proof.
  intros Hx. unfold round_float. apply Qgt_alt in Hx. rewrite Hx. reflexivity.
Qed.

(** The significand of a positive [x], scaled to an integer of 53 bits. *)
Lemma scaled_bounds (x : Q) :
  0 < x ->
  inject_Z (2 ^ 52) <= x / 2 ^ (ilog2 x - 52) /\
  x / 2 ^ (ilog2 x - 52) < inject_Z (2 ^ 53).
Proof.
  intros Hx. destruct (ilog2_spec x Hx) as [Hlo Hhi].
  pose proof (pow2_pos (ilog2 x - 52)) as Hp.
  assert (H52 : 2 ^ ilog2 x == inject_Z (2 ^ 52) * 2 ^ (ilog2 x - 52)).
  { rewrite <- (pow2_inject 52) by lia. rewrite <- Qpower_plus by discriminate.
    replace (52 + (ilog2 x - 52))%Z with (ilog2 x) by lia. reflexivity. }
  assert (H53 : 2 ^ (ilog2 x + 1) == inject_Z (2 ^ 53) * 2 ^ (ilog2 x - 52)).
  { rewrite <- (pow2_inject 53) by lia. rewrite <- Qpower_plus by discriminate.
    replace (53 + (ilog2 x - 52))%Z with (ilog2 x + 1)%Z by lia. reflexivity. }
  split.
  - apply Qle_shift_div_l; [exact Hp |]. rewrite <- H52. exact Hlo.
  - apply Qlt_shift_div_r; [exact Hp |]. rewrite <- H53. exact Hhi.
Qed.

(** Rounding stays within the binade. *)
Lemma round_float_binade (x : Q) :
  0 < x ->
  2 ^ ilog2 x <= round_float x /\ round_float x <= 2 ^ (ilog2 x + 1).
Proof.
  intros Hx. destruct (scaled_bounds x Hx) as [Hlo Hhi].
  pose proof (pow2_pos (ilog2 x - 52)) as Hp.
  rewrite round_float_pos by exact Hx.
  pose proof (rne_mono _ _ Hlo) as H1. rewrite rne_inject_Z in H1.
  pose proof (rne_mono _ _ (Qlt_le_weak _ _ Hhi)) as H2. rewrite rne_inject_Z in H2.
  split.
  - setoid_replace (2 ^ ilog2 x) with (inject_Z (2 ^ 52) * 2 ^ (ilog2 x - 52))
      using relation Qeq.
    + apply Qmult_le_compat_r; [| apply Qlt_le_weak, Hp]. rewrite <- Zle_Qle. exact H1.
    + rewrite <- (pow2_inject 52) by lia. rewrite <- Qpower_plus by discriminate.
      replace (52 + (ilog2 x - 52))%Z with (ilog2 x) by lia. reflexivity.
  - setoid_replace (2 ^ (ilog2 x + 1)) with (inject_Z (2 ^ 53) * 2 ^ (ilog2 x - 52))
      using relation Qeq.
    + apply Qmult_le_compat_r; [| apply Qlt_le_weak, Hp]. rewrite <- Zle_Qle. exact H2.
    + rewrite <- (pow2_inject 53) by lia. rewrite <- Qpower_plus by discriminate.
      replace (53 + (ilog2 x - 52))%Z with (ilog2 x + 1)%Z by lia. reflexivity.
Qed.

Lemma round_float_pos_lt (x : Q) : 0 < x -> 0 < round_float x.
Proof.
  intros Hx. eapply Qlt_le_trans; [apply (pow2_pos (ilog2 x)) |].
  apply round_float_binade, Hx.
Qed.

(** Rounding is monotone (on the positive numbers, which is where the delay
    lives). *)
Lemma round_float_mono (x y : Q) : 0 < x -> x <= y -> round_float x <= round_float y.
Proof.
  intros Hx Hle.
  assert (Hy : 0 < y) by (eapply Qlt_le_trans; eassumption).
  pose proof (ilog2_mono x y Hx Hle) as He.
  destruct (Z.eq_dec (ilog2 x) (ilog2 y)) as [Heq | Hne].
  - rewrite !round_float_pos by assumption. rewrite Heq.
    pose proof (pow2_pos (ilog2 y - 52)) as Hp.
    apply Qmult_le_compat_r; [| apply Qlt_le_weak, Hp].
    rewrite <- Zle_Qle. apply rne_mono.
    apply Qmult_le_compat_r; [exact Hle |].
    apply Qlt_le_weak, Qinv_lt_0_compat, Hp.
  - destruct (round_float_binade x Hx) as [_ Hxhi].
    destruct (round_float_binade y Hy) as [Hylo _].
    eapply Qle_trans; [exact Hxhi |]. eapply Qle_trans; [| exact Hylo].
    apply pow2_le. lia.
Qed.

Lemma round_float_comp (x y : Q) : 0 < x -> x == y -> round_float x == round_float y.
Proof.
  intros Hx Heq. assert (Hy : 0 < y) by (rewrite <- Heq; exact Hx).
  assert (He : ilog2 x = ilog2 y).
  { destruct (ilog2_spec y Hy) as [Hlo Hhi]. apply ilog2_unique; rewrite Heq; assumption. }
  rewrite !round_float_pos by assumption. rewrite He.
  rewrite (rne_comp (x / 2 ^ (ilog2 y - 52)) (y / 2 ^ (ilog2 y - 52))); [reflexivity |].
  rewrite Heq. reflexivity.
Qed.

(** Scaling by a power of two commutes with rounding: there is no overflow
    and no underflow in this format. *)
Lemma round_float_scale (k : Z) (x : Q) :
  0 < x -> round_float (2 ^ k * x) == 2 ^ k * round_float x.
Proof.
  intros Hx. pose proof (pow2_pos k) as Hk.
  assert (Hkx : 0 < 2 ^ k * x) by (apply Qmult_lt_0_compat; assumption).
  destruct (ilog2_spec x Hx) as [Hlo Hhi].
  assert (He : ilog2 (2 ^ k * x) = (ilog2 x + k)%Z).
  { apply ilog2_unique.
    - rewrite (Z.add_comm (ilog2 x) k), Qpower_plus by discriminate.
      apply Qmult_le_l; assumption.
    - replace (ilog2 x + k + 1)%Z with (k + (ilog2 x + 1))%Z by lia.
      rewrite Qpower_plus by discriminate. apply Qmult_lt_l; assumption. }
  rewrite !round_float_pos by assumption. rewrite He.
  replace (ilog2 x + k - 52)%Z with (k + (ilog2 x - 52))%Z by lia.
  assert (Hs : 2 ^ k * x / 2 ^ (k + (ilog2 x - 52)) == x / 2 ^ (ilog2 x - 52)).
  { rewrite Qpower_plus by discriminate. field.
    split; apply Qpower_not_0; discriminate. }
  rewrite (rne_comp _ _ Hs). rewrite Qpower_plus by discriminate. ring.
Qed.

Lemma float_0_1_value : float_0_1 == 3602879701896397 # 36028797018963968.
Proof. vm_compute. reflexivity. Qed.

Lemma float_0_1_pos : 0 < float_0_1.
Proof. rewrite float_0_1_value. reflexivity. Qed.

Lemma float_0_1_exact : round_float float_0_1 == float_0_1.
Proof. vm_compute. reflexivity. Qed.

Lemma round_float_half : round_float (1 # 2) == 1 # 2.
Proof. vm_compute. reflexivity. Qed.

Lemma round_float_3_2 : round_float (3 # 2) == 3 # 2.
Proof. vm_compute. reflexivity. Qed.

(** [(2**retry) * 0.1] is exact. *)
Lemma fmul_pow2_0_1 (retry : Z) : fmul (2 ^ retry) float_0_1 == 2 ^ retry * float_0_1.
Proof.
  unfold fmul. rewrite round_float_scale by apply float_0_1_pos.
  rewrite float_0_1_exact. reflexivity.
Qed.

Lemma fmul_pow2_0_1_pos (retry : Z) : 0 < fmul (2 ^ retry) float_0_1.
Proof.
  rewrite fmul_pow2_0_1. apply Qmult_lt_0_compat; [apply pow2_pos | apply float_0_1_pos].
Qed.

(** [random.random() + 0.5] for a draw in [[0, 1)]. *)
Lemma fadd_half_bounds (u : Q) :
  0 <= u -> u < 1 -> 1 # 2 <= fadd u (1 # 2) /\ fadd u (1 # 2) <= 3 # 2.
Proof.
  intros H0 H1. unfold fadd. split.
  - rewrite <- round_float_half at 1. apply round_float_mono; [reflexivity | lra].
  - rewrite <- round_float_3_2. apply round_float_mono; lra.
Qed.

Lemma sleep_seconds_interval (retry : Z) (u : Q) :
  0 <= u -> u < 1 ->
  delay_low retry <= sleep_seconds retry u /\ sleep_seconds retry u <= delay_high retry.
Proof.
  intros H0 H1. destruct (fadd_half_bounds u H0 H1) as [Hlo Hhi].
  pose proof (fmul_pow2_0_1_pos retry) as Hp.
  unfold delay_low, delay_high, sleep_seconds.
  set (p := fmul (2 ^ retry) float_0_1) in *.
  unfold fmul. split; apply round_float_mono.
  - apply Qmult_lt_0_compat; [exact Hp | reflexivity].
  - apply Qmult_le_l; assumption.
  - apply Qmult_lt_0_compat; [exact Hp | lra].
  - apply Qmult_le_l; assumption.
Qed.

(** The delay of attempt [retry] is [2 ^ retry] times the delay computed
    with [2 ** 0]. *)
Lemma sleep_seconds_scale (retry : Z) (u : Q) :
  0 <= u ->
  sleep_seconds retry u == 2 ^ retry * round_float (float_0_1 * fadd u (1 # 2)).
Proof.
  intros H0.
  assert (Hv : 0 < fadd u (1 # 2)) by (apply round_float_pos_lt; lra).
  unfold sleep_seconds. unfold fmul at 1.
  rewrite (round_float_comp _ (2 ^ retry * (float_0_1 * fadd u (1 # 2)))).
  - apply round_float_scale. apply Qmult_lt_0_compat; [apply float_0_1_pos | exact Hv].
  - apply Qmult_lt_0_compat; [apply fmul_pow2_0_1_pos | exact Hv].
  - rewrite fmul_pow2_0_1. ring.
Qed.

Lemma sleep_seconds_doubles (retry : Z) (u : Q) :
  0 <= u -> sleep_seconds (retry + 1) u == 2 * sleep_seconds retry u.
Proof.
  intros H0. rewrite !sleep_seconds_scale by exact H0. rewrite pow2_succ. ring.
Qed.

Lemma sleep_seconds_pos (retry : Z) (u : Q) : 0 <= u -> 0 < sleep_seconds retry u.
Proof.
  intros H0. unfold sleep_seconds, fmul at 1. apply round_float_pos_lt.
  apply Qmult_lt_0_compat; [apply fmul_pow2_0_1_pos | apply round_float_pos_lt; lra].
Qed.

Lemma delay_low_value (retry : Z) : delay_low retry == 2 ^ retry * float_0_1 * (1 # 2).
Proof.
  unfold delay_low. unfold fmul at 1.
  rewrite (round_float_comp _ (2 ^ (retry - 1) * float_0_1)).
  - rewrite round_float_scale by apply float_0_1_pos. rewrite float_0_1_exact.
    rewrite Qpower_minus by discriminate. rewrite Qpower_1_r. field.
  - apply Qmult_lt_0_compat; [apply fmul_pow2_0_1_pos | reflexivity].
  - rewrite fmul_pow2_0_1. rewrite Qpower_minus by discriminate. rewrite Qpower_1_r. field.
Qed.

Lemma sum_sleep_doubles (retry : Z) (us : list Q) :
  Forall (fun u => 0 <= u /\ u < 1) us ->
  0 <= total (map (sleep_seconds retry) us) /\
  total (map (sleep_seconds (retry + 1)) us) == 2 * total (map (sleep_seconds retry) us).
Proof.
  induction 1 as [|u us [H0 H1] _ [IH0 IH]]; simpl.
  - split; [apply Qle_refl | ring].
  - pose proof (sleep_seconds_pos retry u H0) as Hpos.
    split; [lra |]. rewrite IH, sleep_seconds_doubles by exact H0. ring.
Qed.

Lemma expected_sleep_mono (retry : Z) (us : list Q) :
  Forall (fun u => 0 <= u /\ u < 1) us ->
  expected_sleep retry us <= expected_sleep (retry + 1) us.
Proof.
  intros Hus. destruct (sum_sleep_doubles retry us Hus) as [H0 H2].
  unfold expected_sleep, mean. fold (total (map (sleep_seconds retry) us)).
  fold (total (map (sleep_seconds (retry + 1)) us)). rewrite H2, !length_map.
  set (s := total _) in *. set (n := inject_Z _).
  assert (Hn : 0 <= / n).
  { apply Qinv_le_0_compat. unfold n. rewrite <- (Zle_Qle 0). lia. }
  unfold Qdiv. nra.
Qed.

Lemma delay_high_scale (retry : Z) :
  delay_high retry == 2 ^ retry * round_float (float_0_1 * (3 # 2)).
Proof.
  unfold delay_high. unfold fmul at 1.
  rewrite (round_float_comp _ (2 ^ retry * (float_0_1 * (3 # 2)))).
  - apply round_float_scale. apply Qmult_lt_0_compat; [apply float_0_1_pos | reflexivity].
  - apply Qmult_lt_0_compat; [apply fmul_pow2_0_1_pos | reflexivity].
  - rewrite fmul_pow2_0_1. ring.
Qed.

(** With the largest draw, [random.random() + 0.5] rounds up to [1.5]. *)
Lemma fadd_largest_draw :
  round_float (float_0_1 * fadd largest_draw (1 # 2)) == round_float (float_0_1 * (3 # 2)).
Proof. vm_compute. reflexivity. Qed.

(** The rounding agrees with the kernel's binary64 numbers on line 88, at
    the end points of the draws and at some draws and attempts between. *)
Lemma sleep_seconds_as_binary64 :
  Q_of_float 0x1.999999999999ap-4 == float_0_1 /\
  Q_of_float 0x1.fffffffffffffp-1 == largest_draw /\
  Q_of_float (sleep_seconds_binary64 1 0x1.fffffffffffffp-1) == sleep_seconds 1 largest_draw /\
  Q_of_float (sleep_seconds_binary64 1 0) == sleep_seconds 1 0 /\
  Q_of_float (sleep_seconds_binary64 2 0x1.fffffffffffffp-1) == sleep_seconds 2 largest_draw /\
  Q_of_float (sleep_seconds_binary64 3 0x1.3333333333333p-2)
    == sleep_seconds 3 (Q_of_float 0x1.3333333333333p-2) /\
  Q_of_float (sleep_seconds_binary64 7 0x1.5555555555555p-2)
    == sleep_seconds 7 (Q_of_float 0x1.5555555555555p-2) /\
  Q_of_float (sleep_seconds_binary64 40 0x1.921fb54442d18p-1)
    == sleep_seconds 40 (Q_of_float 0x1.921fb54442d18p-1) /\
  Q_of_float (sleep_seconds_binary64 1023 0x1.fffffffffffffp-1)
    == sleep_seconds 1023 largest_draw.
Proof. repeat split; vm_compute; reflexivity. Qed.

(** C4, as the code has it: for every attempt number [retry] and every draw
    [u] of [random.random()], that is [0 <= u < 1], the delay lies in the
    closed interval between the floats [(2**retry) * 0.1 * 0.5] and
    [(2**retry) * 0.1 * 1.5], and is not below the exact
    [2 ^ retry * 0.1 * 0.5]; the upper end point is reached by the largest
    draw; for the same draw the delay of the next attempt is exactly twice
    as long, so that the mean delay over any finite family of draws does not
    decrease with the attempt number. *)
Theorem sleep_seconds_bounds (retry : Z) (u : Q) :
  0 <= u -> u < 1 ->
  delay_low retry <= sleep_seconds retry u /\
  sleep_seconds retry u <= delay_high retry /\
  2 ^ retry * (1 # 10) * (1 # 2) <= sleep_seconds retry u /\
  sleep_seconds retry largest_draw == delay_high retry /\
  sleep_seconds (retry + 1) u == 2 * sleep_seconds retry u /\
  forall us : list Q,
    Forall (fun u => 0 <= u /\ u < 1) us ->
    expected_sleep retry us <= expected_sleep (retry + 1) us.
Proof.
  intros H0 H1. destruct (sleep_seconds_interval retry u H0 H1) as [Hlo Hhi].
  split; [exact Hlo |]. split; [exact Hhi |]. split; [| split; [| split]].
  - eapply Qle_trans; [| exact Hlo]. rewrite delay_low_value.
    pose proof (pow2_pos retry) as Hp. rewrite float_0_1_value.
    apply Qmult_le_compat_r; [| discriminate].
    apply Qmult_le_l; [exact Hp | discriminate].
  - rewrite sleep_seconds_scale by discriminate.
    rewrite delay_high_scale, fadd_largest_draw. reflexivity.
  - apply sleep_seconds_doubles, H0.
  - apply expected_sleep_mono.
Qed.

Lemma sleep_seconds_bounds_witness :
  delay_low 1 <= sleep_seconds 1 (1 # 2) /\
  sleep_seconds 1 (1 # 2) <= delay_high 1 /\
  2 ^ 1 * (1 # 10) * (1 # 2) <= sleep_seconds 1 (1 # 2) /\
  sleep_seconds 1 largest_draw == delay_high 1 /\
  sleep_seconds (1 + 1) (1 # 2) == 2 * sleep_seconds 1 (1 # 2) /\
  forall us : list Q,
    Forall (fun u => 0 <= u /\ u < 1) us ->
    expected_sleep 1 us <= expected_sleep (1 + 1) us.
Proof.
  apply (sleep_seconds_bounds 1 (1 # 2)).
  - discriminate.
  - reflexivity.
Defined.

(** Against C4 as stated: the largest draw is below 1, and the
    delay it gives on attempt 1 is [0.30000000000000004], which is not
    below [2 ^ 1 * 0.1 * 1.5], neither taken exactly nor as the float Python
    computes for it. *)
Lemma sleep_seconds_reaches_upper_end :
  0 <= largest_draw /\ largest_draw < 1 /\
  sleep_seconds 1 largest_draw == 5404319552844596 # 18014398509481984 /\
  ~ sleep_seconds 1 largest_draw < 2 ^ 1 * (1 # 10) * (3 # 2) /\
  ~ sleep_seconds 1 largest_draw < delay_high 1 /\
  Q_of_float (sleep_seconds_binary64 1 0x1.fffffffffffffp-1) == sleep_seconds 1 largest_draw.
Proof.
  split; [discriminate |]. split; [reflexivity |].
  split; [vm_compute; reflexivity |].
  split; [| split].
  - apply Qle_not_lt. vm_compute. discriminate.
  - apply Qle_not_lt. vm_compute. discriminate.
  - vm_compute. reflexivity.
Qed.

Local Close Scope Q_scope.

(** ** The retry loop, attempt by attempt *)

Lemma range_cons (start stop : Z) :
  start < stop -> range start stop = start :: range (start + 1) stop.
Proof.
  intros Hlt. unfold range.
  replace (Z.to_nat (stop - start)) with (S (Z.to_nat (stop - (start + 1)))) by lia.
  rewrite <- cons_seq, fmap_cons, <- fmap_S_seq, <- list_fmap_compose.
  f_equal; [lia |]. apply list_fmap_ext. intros i x _. simpl. lia.
Qed.

Section RunnerFacts.
Context {C : Type} `{Session C}.
Variable op : C -> outcome unit * C.
Variable random : nat -> Q.

Local Abbreviation retry_loop := (retry_loop op random).
Local Abbreviation run_transaction := (run_transaction op random).
Local Abbreviation conflicts_from := (conflicts_from op).
Local Abbreviation conflicts := (conflicts op).

(** One attempt that ends in a serialization error, with a handler that
    runs to its end: the loop goes on with the session [conn.rollback()]
    left, after the handler's events. *)
Lemma retry_loop_conflict max_retries retry rest (w : world C) e c' u c'' :
  op (conn w) = (Raised e, c') ->
  is_SerializationError e = true ->
  rollback c' = (Returned u, c'') ->
  retry < 1024 ->
  retry_loop max_retries (retry :: rest) w =
  retry_loop max_retries rest
    (World c'' (S (draws w))
       (log w ++ CallOp retry (Raised e) :: conflict_events retry e (random (draws w)))).
Proof.
  intros Hop He Hrb Hlt. simpl. unfold await_op. rewrite Hop, He.
  unfold on_serialization_error, emit; simpl. rewrite Hrb.
  assert (Hov : (1024 <=? retry) = false) by (apply Z.leb_gt; exact Hlt).
  rewrite Hov. unfold random_random, conflict_events; simpl.
  repeat rewrite <- app_assoc. reflexivity.
Qed.

(** One attempt that ends in a serialization error, with [conn.rollback()]
    raising: the loop is left with that exception, after the first log line
    of the handler. *)
Lemma retry_loop_rollback_raises max_retries retry rest (w : world C) e c' x c'' :
  op (conn w) = (Raised e, c') ->
  is_SerializationError e = true ->
  rollback c' = (Raised x, c'') ->
  retry_loop max_retries (retry :: rest) w =
  (Raised x,
   World c'' (draws w) (log w ++ [CallOp retry (Raised e); LogDebug (GotError e)])).
Proof.
  intros Hop He Hrb. simpl. unfold await_op. rewrite Hop, He.
  unfold on_serialization_error, emit; simpl. rewrite Hrb.
  rewrite <- app_assoc. reflexivity.
Qed.

(** One attempt, numbered 1024 or more, that ends in a serialization error:
    after the rollback the delay cannot be computed. *)
Lemma retry_loop_overflow max_retries retry rest (w : world C) e c' u c'' :
  op (conn w) = (Raised e, c') ->
  is_SerializationError e = true ->
  rollback c' = (Returned u, c'') ->
  1024 <= retry ->
  retry_loop max_retries (retry :: rest) w =
  (Raised int_too_large,
   World c'' (draws w)
     (log w ++ [CallOp retry (Raised e); LogDebug (GotError e); ConnRollback;
                LogDebug SerializationBranch])).
Proof.
  intros Hop He Hrb Hge. simpl. unfold await_op. rewrite Hop, He.
  unfold on_serialization_error, emit; simpl. rewrite Hrb.
  assert (Hov : (1024 <=? retry) = true) by (apply Z.leb_le; exact Hge).
  rewrite Hov. simpl. repeat rewrite <- app_assoc. reflexivity.
Qed.

(** One attempt that ends in any other exception: the loop stops there. *)
Lemma retry_loop_fatal max_retries retry rest (w : world C) e c' :
  op (conn w) = (Raised e, c') ->
  is_SerializationError e = false ->
  retry_loop max_retries (retry :: rest) w =
  (Raised e, World c' (draws w) (log w ++ CallOp retry (Raised e) :: fatal_events e)).
Proof.
  intros Hop He. simpl. unfold await_op. rewrite Hop, He.
  unfold fatal_events, on_exception, emit. destruct (is_Exception e); simpl.
  - repeat rewrite <- app_assoc. reflexivity.
  - reflexivity.
Qed.

(** One attempt that returns: the loop stops there. *)
Lemma retry_loop_returned max_retries retry rest (w : world C) u c' :
  op (conn w) = (Returned u, c') ->
  retry_loop max_retries (retry :: rest) w =
  (Returned tt, World c' (draws w) (log w ++ [CallOp retry (Returned tt)])).
Proof.
  intros Hop. simpl. unfold await_op. rewrite Hop. destruct u. reflexivity.
Qed.

(** [n] attempts in a row that end in serialization errors, each with a
    handler that runs to its end: [n] calls, [n] rollbacks and [n] sleeps,
    after which the loop goes on with the next attempt number. *)
Lemma retry_loop_conflicts max_retries stop (n : nat) :
  forall start (w : world C) c',
    conflicts_from start n (conn w) = Some c' ->
    start + Z.of_nat n <= stop ->
    exists evs,
      retry_loop max_retries (range start stop) w =
      retry_loop max_retries (range (start + Z.of_nat n) stop)
        (World c' (draws w + n) (log w ++ evs)) /\
      count is_call evs = n /\ count is_sleep evs = n /\
      count is_rollback evs = n /\ count is_conflict evs = n /\
      count is_scope evs = 0%nat.
Proof.
  induction n as [|n IH]; intros start w c' Hc Hle.
  - simpl in Hc. injection Hc as <-. exists [].
    rewrite app_nil_r, Z.add_0_r, Nat.add_0_r. destruct w; simpl.
    repeat split; reflexivity.
  - simpl in Hc. destruct (op (conn w)) as [[u|e] c1] eqn:Hop; [discriminate |].
    destruct (is_SerializationError e) eqn:He; [| discriminate].
    destruct (rollback c1) as [[u|x] c2] eqn:Hrb; [| discriminate].
    destruct (1024 <=? start) eqn:Hov; [discriminate |].
    apply Z.leb_gt in Hov.
    rewrite range_cons by lia.
    rewrite (retry_loop_conflict _ _ _ _ _ _ _ _ Hop He Hrb Hov).
    edestruct (IH (start + 1) (World c2 (S (draws w))
      (log w ++ CallOp start (Raised e) :: conflict_events start e (random (draws w)))))
      as (evs & Heq & Hcall & Hsleep & Hrbs & Hcf & Hsc); [exact Hc | lia |].
    exists (CallOp start (Raised e) :: conflict_events start e (random (draws w)) ++ evs).
    rewrite Heq. simpl.
    replace (start + 1 + Z.of_nat n) with (start + Z.pos (Pos.of_succ_nat n)) by lia.
    replace (S (draws w + n)) with (draws w + S n)%nat by lia.
    rewrite <- app_assoc. simpl. rewrite He.
    repeat split; try reflexivity; lia.
Qed.

Lemma run_transaction_eq max_retries (w : world C) :
  run_transaction max_retries w =
  match retry_loop max_retries (range 1 (max_retries + 1))
          (World (transaction_enter (conn w)) (draws w) (log w ++ [TxEnter])) with
  | (Returned _, w') =>
      (Returned tt, World (transaction_commit (conn w')) (draws w') (log w' ++ [TxCommit]))
  | (Raised e, w') =>
      (Raised e, World (transaction_abort (conn w')) (draws w') (log w' ++ [TxAbort]))
  end.
Proof. reflexivity. Qed.

(** After [n] conflicts in a row the whole call is the rest of the loop,
    from attempt [n + 1] on, inside the block. *)
Lemma run_transaction_conflicts max_retries (n : nat) (w : world C) c :
  conflicts n (transaction_enter (conn w)) = Some c ->
  Z.of_nat n <= max_retries ->
  exists evs,
    run_transaction max_retries w =
    match retry_loop max_retries (range (1 + Z.of_nat n) (max_retries + 1))
            (World c (draws w + n) (log w ++ TxEnter :: evs)) with
    | (Returned _, w') =>
        (Returned tt, World (transaction_commit (conn w')) (draws w') (log w' ++ [TxCommit]))
    | (Raised e, w') =>
        (Raised e, World (transaction_abort (conn w')) (draws w') (log w' ++ [TxAbort]))
    end /\
    count is_call evs = n /\ count is_sleep evs = n /\
    count is_rollback evs = n /\ count is_conflict evs = n /\
    count is_scope evs = 0%nat.
Proof.
  intros Hc Hle. rewrite run_transaction_eq.
  destruct (retry_loop_conflicts max_retries (max_retries + 1) n 1
              (World (transaction_enter (conn w)) (draws w) (log w ++ [TxEnter])) c Hc)
    as (evs & Heq & Hcounts); [lia |].
  exists evs. rewrite Heq. simpl. rewrite <- app_assoc. simpl. auto.
Qed.

(** C2: for every attempt [j] and every exception [e] that is no
    serialization error, when the unit of work raises [e] on attempt [j]
    (the attempts before it having ended in serialization errors),
    [run_transaction] raises that same [e]; the call of attempt [j] is the
    last call, it is followed by the two log lines of the handler (none for
    an exception outside [Exception]) and by the abort of the block, with no
    sleep and no rollback for this failure: [j] calls and [j - 1] sleeps and
    rollbacks in all. *)
Theorem run_transaction_fatal_on_attempt (max_retries : Z) (j : nat) (w : world C) c e c' :
  (1 <= j)%nat ->
  Z.of_nat j <= max_retries ->
  conflicts (j - 1) (transaction_enter (conn w)) = Some c ->
  op c = (Raised e, c') ->
  is_SerializationError e = false ->
  fst (run_transaction max_retries w) = Raised e /\
  exists evs pre,
    log (snd (run_transaction max_retries w)) = log w ++ evs /\
    evs = pre ++ CallOp (Z.of_nat j) (Raised e) :: fatal_events e ++ [TxAbort] /\
    count is_call evs = j /\
    count is_sleep evs = (j - 1)%nat /\
    count is_rollback evs = (j - 1)%nat.
Proof.
  intros Hj Hle Hc Hop He.
  destruct (run_transaction_conflicts max_retries _ w c Hc) as
    (evs & Heq & Hcall & Hsleep & Hrb & _ & _); [lia |].
  rewrite range_cons in Heq by lia.
  rewrite (retry_loop_fatal _ _ _ (World c _ _) _ _ Hop He) in Heq.
  rewrite Heq. simpl. split; [reflexivity |].
  exists (TxEnter :: evs ++ CallOp (Z.of_nat j) (Raised e) :: fatal_events e ++ [TxAbort]),
    (TxEnter :: evs).
  replace (1 + Z.of_nat (j - 1)) with (Z.of_nat j) by lia.
  destruct (fatal_events_counts e) as (F1 & F2 & F3 & _).
  repeat rewrite <- app_assoc. simpl.
  rewrite !count_app. simpl. rewrite !count_app, F1, F2, F3. simpl.
  repeat split; try reflexivity; lia.
Qed.

(** C9: for every [max_retries <= 0] the loop has no iteration: the unit of
    work is not called, nothing sleeps, nothing is rolled back explicitly;
    the block is entered and left by the retries-exhausted [ValueError],
    whose message carries [max_retries]. *)
Theorem run_transaction_no_attempt (max_retries : Z) (w : world C) :
  max_retries <= 0 ->
  run_transaction max_retries w =
  (Raised (ValueError ("transaction did not succeed after " +:+ str_int max_retries +:+ " retries")),
   World (transaction_abort (transaction_enter (conn w))) (draws w)
     (log w ++ [TxEnter; TxAbort])).
Proof.
  intros Hle. rewrite run_transaction_eq, range_nil by lia. simpl.
  rewrite <- app_assoc. reflexivity.
Qed.

End RunnerFacts.

(** ** [run_transaction] on the connection of the program *)



(** With [max_retries >= 1], a call on the connection of the program is its
    first attempt and nothing more: the attempt returns and the block
    commits; or it raises a serialization error, the handler logs it and
    raises [AttributeError] at [conn.rollback], and the block is aborted; or
    it raises another exception, which is logged and raised again, and the
    block is aborted. *)
Lemma run_transaction_first_attempt (op : connection -> outcome unit * connection)
    (random : nat -> Q) (max_retries : Z) (w : world connection) :
  1 <= max_retries ->
  run_transaction op random max_retries w =
  match op (transaction_enter (conn w)) with
  | (Returned _, c) =>
      (Returned tt,
       World (transaction_commit c) (draws w)
         (log w ++ [TxEnter; CallOp 1 (Returned tt); TxCommit]))
  | (Raised e, c) =>
      if is_SerializationError e then
        (Raised no_rollback,
         World (transaction_abort c) (draws w)
           (log w ++ [TxEnter; CallOp 1 (Raised e); LogDebug (GotError e); TxAbort]))
      else
        (Raised e,
         World (transaction_abort c) (draws w)
           (log w ++ TxEnter :: CallOp 1 (Raised e) :: fatal_events e ++ [TxAbort]))
  end.
Proof.
  intros Hpos. rewrite run_transaction_eq, range_cons by lia.
  destruct (op (transaction_enter (conn w))) as [[u|e] c'] eqn:Hop.
  - rewrite (retry_loop_returned _ _ _ _ _ (World (transaction_enter (conn w)) _ _) _ _ Hop).
    simpl. rewrite <- !app_assoc. reflexivity.
  - destruct (is_SerializationError e) eqn:He.
    + assert (Hrb : rollback c' = (Raised no_rollback, c')) by reflexivity.
      rewrite (retry_loop_rollback_raises _ _ _ _ _
                 (World (transaction_enter (conn w)) _ _) _ _ _ _ Hop He Hrb).
      simpl. rewrite <- !app_assoc. reflexivity.
    + rewrite (retry_loop_fatal _ _ _ _ _ (World (transaction_enter (conn w)) _ _) _ _ Hop He).
      simpl. rewrite <- !app_assoc. reflexivity.
Qed.

(** C1, as the code runs on the connection of the program: for every
    [max_retries >= 1], when the unit of work raises a serialization error on
    every call, [run_transaction] calls it once, does not sleep, rolls
    nothing back explicitly, and raises the [AttributeError] of
    [conn.rollback], which is not the retries-exhausted error of any
    ceiling: it makes neither [max_retries] calls nor [max_retries - 1]
    sleeps. *)
Theorem run_transaction_stops_at_first_conflict
    (op : connection -> outcome unit * connection) (random : nat -> Q)
    (max_retries : Z) (w : world connection) :
  1 <= max_retries ->
  always_conflicts op ->
  fst (run_transaction op random max_retries w) = Raised no_rollback /\
  (forall n, no_rollback <> retries_exhausted n) /\
  exists evs,
    log (snd (run_transaction op random max_retries w)) = log w ++ evs /\
    count is_call evs = 1%nat /\
    count is_sleep evs = 0%nat /\
    count is_rollback evs = 0%nat.
Proof.
  intros Hpos Hall. rewrite (run_transaction_first_attempt op random max_retries w Hpos).
  destruct (Hall (transaction_enter (conn w))) as (e & c' & -> & ->). simpl.
  split; [reflexivity |]. split; [discriminate |].
  eexists. split; [reflexivity |]. repeat split.
Qed.

(** C3, as the code runs on the connection of the program: for every
    [max_retries >= 1], [run_transaction] returns exactly when the first
    call of the unit of work returns, and it never makes a second call or
    sleeps; after a first attempt that ended in a serialization error it
    raises the [AttributeError] of [conn.rollback], whatever a second call
    would have done: no success on an attempt [k >= 2]. *)
Theorem run_transaction_succeeds_only_at_once
    (op : connection -> outcome unit * connection) (random : nat -> Q)
    (max_retries : Z) (w : world connection) :
  1 <= max_retries ->
  (fst (run_transaction op random max_retries w) = Returned tt <->
   fst (op (transaction_enter (conn w))) = Returned tt) /\
  (forall e, fst (op (transaction_enter (conn w))) = Raised e ->
     is_SerializationError e = true ->
     fst (run_transaction op random max_retries w) = Raised no_rollback) /\
  exists evs,
    log (snd (run_transaction op random max_retries w)) = log w ++ evs /\
    count is_call evs = 1%nat /\
    count is_sleep evs = 0%nat.
Proof.
  intros Hpos. rewrite (run_transaction_first_attempt op random max_retries w Hpos).
  destruct (op (transaction_enter (conn w))) as [[[]|e] c'] eqn:Hop; simpl.
  - split; [tauto |]. split; [discriminate |].
    eexists. split; [reflexivity |]. split; reflexivity.
  - destruct (is_SerializationError e) eqn:He; simpl.
    + split; [split; discriminate |]. split; [reflexivity |].
      eexists. split; [reflexivity |]. split; reflexivity.
    + split; [split; discriminate |]. split; [intros e' [= <-]; congruence |].
      eexists. split; [reflexivity |].
      destruct (fatal_events_counts e) as (F1 & F2 & _).
      simpl. rewrite !count_app, F1, F2. split; reflexivity.
Qed.

(** C5, as the code runs on the connection of the program: a call ends in
    one of four ways, not three: it returns; it raises the exception the
    unit of work raised, which is no serialization error; it raises the
    retries-exhausted error; or it raises the [AttributeError] of
    [conn.rollback].  It never raises a serialization error.  The fourth way
    is the one every call with [max_retries >= 1] takes whose first attempt
    ends in a serialization error, and the error it raises is neither the one
    of the unit of work nor the retries-exhausted one. *)
Theorem run_transaction_fourth_outcome
    (op : connection -> outcome unit * connection) (random : nat -> Q)
    (max_retries : Z) (w : world connection) :
  (fst (run_transaction op random max_retries w) = Returned tt \/
   (exists e c c', fst (run_transaction op random max_retries w) = Raised e /\
      op c = (Raised e, c') /\ is_SerializationError e = false) \/
   fst (run_transaction op random max_retries w) = Raised (retries_exhausted max_retries) \/
   fst (run_transaction op random max_retries w) = Raised no_rollback) /\
  (forall e, fst (run_transaction op random max_retries w) = Raised e ->
     is_SerializationError e = false) /\
  (1 <= max_retries ->
   forall e c', op (transaction_enter (conn w)) = (Raised e, c') ->
     is_SerializationError e = true ->
     fst (run_transaction op random max_retries w) = Raised no_rollback /\
     no_rollback <> e /\
     no_rollback <> retries_exhausted max_retries).
Proof.
  destruct (Z_le_gt_dec max_retries 0) as [Hle | Hgt].
  - rewrite (run_transaction_no_attempt op random max_retries w Hle). simpl.
    split; [right; right; left; reflexivity |].
    split; [intros e [= <-]; reflexivity | lia].
  - assert (Hpos : 1 <= max_retries) by lia.
    rewrite (run_transaction_first_attempt op random max_retries w Hpos).
    destruct (op (transaction_enter (conn w))) as [[[]|e] c'] eqn:Hop; simpl.
    + split; [left; reflexivity |]. split; [discriminate |]. intros _ e c0 [=].
    + destruct (is_SerializationError e) eqn:He; simpl.
      * split; [right; right; right; reflexivity |].
        split; [intros e' [= <-]; reflexivity |].
        intros _ e' c0 [= <- <-] _. split; [reflexivity |].
        split; [intros <-; discriminate | discriminate].
      * split; [right; left; exists e, (transaction_enter (conn w)), c'; auto |].
        split; [intros e' [= <-]; exact He |].
        intros _ e' c0 [= <- <-] He'. congruence.
Qed.


(** C7, as the code runs on the connection of the program: when the first
    attempt ends in a serialization error [e], the handler logs [e] and
    raises [AttributeError] at [conn.rollback]: the call consists of the
    entry of the block, the one call of the unit of work, that log line and
    the abort of the block, with no explicit rollback, no backoff and no
    second call, and the session is the one the unit of work left, with its
    block aborted. *)
Theorem run_transaction_conflict_without_rollback
    (op : connection -> outcome unit * connection) (random : nat -> Q)
    (max_retries : Z) (w : world connection) (e : exn) (c' : connection) :
  1 <= max_retries ->
  op (transaction_enter (conn w)) = (Raised e, c') ->
  is_SerializationError e = true ->
  rollback c' = (Raised no_rollback, c') /\
  run_transaction op random max_retries w =
  (Raised no_rollback,
   World (transaction_abort c') (draws w)
     (log w ++ [TxEnter; CallOp 1 (Raised e); LogDebug (GotError e); TxAbort])).
Proof.
  intros Hpos Hop He. split; [reflexivity |].
  rewrite (run_transaction_first_attempt op random max_retries w Hpos), Hop, He.
  reflexivity.
Qed.


(** On the connection of the program [run_transaction] never backs off:
    whatever the unit of work does and whatever [max_retries] is, a call
    does not sleep, draws no random number and rolls nothing back
    explicitly. *)
Theorem run_transaction_never_sleeps
    (op : connection -> outcome unit * connection) (random : nat -> Q)
    (max_retries : Z) (w : world connection) :
  draws (snd (run_transaction op random max_retries w)) = draws w /\
  exists evs,
    log (snd (run_transaction op random max_retries w)) = log w ++ evs /\
    count is_sleep evs = 0%nat /\
    count is_rollback evs = 0%nat /\
    (slept evs == 0)%Q.
Proof.
  destruct (Z_le_gt_dec max_retries 0) as [Hle | Hgt].
  - rewrite (run_transaction_no_attempt op random max_retries w Hle). simpl.
    split; [reflexivity |]. eexists. split; [reflexivity |]. repeat split.
  - assert (Hpos : 1 <= max_retries) by lia.
    rewrite (run_transaction_first_attempt op random max_retries w Hpos).
    destruct (op (transaction_enter (conn w))) as [[[]|e] c'] eqn:Hop; simpl.
    + split; [reflexivity |]. eexists. split; [reflexivity |]. repeat split.
    + destruct (is_SerializationError e) eqn:He; simpl.
      * split; [reflexivity |]. eexists. split; [reflexivity |]. repeat split.
      * split; [reflexivity |]. eexists. split; [reflexivity |].
        destruct (fatal_events_counts e) as (_ & F2 & F3 & _).
        simpl. rewrite !count_app, F2, F3. repeat split.
        unfold fatal_events. destruct (is_Exception e); reflexivity.
Qed.

(** ** [transfer_funds] *)

(** With too small a balance [transfer_funds] stops after the SELECT. *)
Lemma transfer_funds_short (frm to : string) (amount balance : Z) (c : connection) :
  accounts c !! frm = Some (Some balance) ->
  balance < amount ->
  transfer_funds frm to amount c =
  (Raised (insufficient_funds frm balance amount),
   Connection (accounts c) (snapshots c) (issued c ++ [SelectBalance frm])).
Proof.
  intros Hrow Hlt. unfold transfer_funds, fetchrow_balance. rewrite Hrow.
  apply Z.ltb_lt in Hlt. rewrite Hlt. reflexivity.
Qed.

(** C10: for all accounts [frm] and [to] and every [amount], when the row
    fetched for [frm] has a balance below [amount], [transfer_funds] raises
    the insufficient-funds [RuntimeError] after the SELECT alone: no UPDATE
    is sent and the table is as it was. *)
Theorem transfer_funds_insufficient (frm to : string) (amount balance : Z) (c : connection) :
  accounts c !! frm = Some (Some balance) ->
  balance < amount ->
  fst (transfer_funds frm to amount c) = Raised (insufficient_funds frm balance amount) /\
  accounts (snd (transfer_funds frm to amount c)) = accounts c /\
  snapshots (snd (transfer_funds frm to amount c)) = snapshots c /\
  issued (snd (transfer_funds frm to amount c)) = issued c ++ [SelectBalance frm].
Proof.
  intros Hrow Hlt. rewrite (transfer_funds_short frm to amount balance c Hrow Hlt).
  simpl. auto.
Qed.

(** With a sufficient balance [transfer_funds] reaches the first UPDATE. *)
Lemma transfer_funds_updates (frm to : string) (amount balance : Z) (c : connection) :
  accounts c !! frm = Some (Some balance) ->
  amount <= balance ->
  transfer_funds frm to amount c =
  match execute_balance_minus amount frm
          (Connection (accounts c) (snapshots c) (issued c ++ [SelectBalance frm])) with
  | (Raised e, c) => (Raised e, c)
  | (Returned _, c) => execute_balance_plus amount to c
  end.
Proof.
  intros Hrow Hle. unfold transfer_funds, fetchrow_balance. rewrite Hrow.
  assert (Hge : (balance <? amount) = false) by (apply Z.ltb_ge; exact Hle).
  rewrite Hge. reflexivity.
Qed.

(** With a sufficient balance, and an amount and new balances that fit the
    column, [transfer_funds] runs to its end. *)
Lemma transfer_funds_full (frm to : string) (amount balance : Z) (c : connection) :
  accounts c !! frm = Some (Some balance) ->
  amount <= balance ->
  is_int amount = true ->
  is_int (balance - amount) = true ->
  fits amount (alter (option_map (fun b => b - amount)) frm (accounts c) !! to) = true ->
  transfer_funds frm to amount c =
  (Returned tt,
   Connection
     (alter (option_map (fun b => b + amount)) to
        (alter (option_map (fun b => b - amount)) frm (accounts c)))
     (snapshots c)
     (issued c ++ [SelectBalance frm; UpdateBalanceMinus amount frm;
                   UpdateBalancePlus amount to])).
Proof.
  intros Hrow Hle Hamount Hdebit Hcredit.
  rewrite (transfer_funds_updates frm to amount balance c Hrow Hle).
  unfold execute_balance_minus. cbn [accounts snapshots issued].
  rewrite Hamount, Hrow. cbn [negb fits].
  change (balance + - amount) with (balance - amount). rewrite Hdebit.
  unfold execute_balance_plus. cbn [accounts snapshots issued].
  rewrite Hamount, Hcredit. cbn [negb].
  rewrite <- !app_assoc. reflexivity.
Qed.

(** The debit of one account leaves the row of another as it was. *)
Lemma fits_after_debit (frm to : string) (amount delta : Z) (table : gmap string (option Z)) :
  frm <> to ->
  fits delta (alter (option_map (fun b => b - amount)) frm table !! to) = fits delta (table !! to).
Proof. intros Hne. rewrite lookup_alter_ne by exact Hne. reflexivity. Qed.

(** A value between two values of the column is one. *)
Lemma is_int_between (a b x : Z) :
  is_int a = true -> is_int b = true -> a <= x <= b -> is_int x = true.
Proof.
  unfold is_int. rewrite !andb_true_iff, !Z.leb_le. lia.
Qed.

(** When the row of [frm] holds at least [amount], and [amount] and the two
    new balances fit the column, [transfer_funds] sends the SELECT and the two
    UPDATEs, in this order, and returns; the balance of [frm] goes down by
    [amount], and the balance of another account [to] goes up by [amount]. *)
Theorem transfer_funds_moves_amount (frm to : string) (amount balance : Z) (c : connection) :
  accounts c !! frm = Some (Some balance) ->
  amount <= balance ->
  frm <> to ->
  is_int amount = true ->
  is_int (balance - amount) = true ->
  fits amount (accounts c !! to) = true ->
  fst (transfer_funds frm to amount c) = Returned tt /\
  issued (snd (transfer_funds frm to amount c)) =
    issued c ++ [SelectBalance frm; UpdateBalanceMinus amount frm; UpdateBalancePlus amount to] /\
  snapshots (snd (transfer_funds frm to amount c)) = snapshots c /\
  accounts (snd (transfer_funds frm to amount c)) !! frm = Some (Some (balance - amount)) /\
  (forall credit, accounts c !! to = Some (Some credit) ->
     accounts (snd (transfer_funds frm to amount c)) !! to = Some (Some (credit + amount))) /\
  (forall id, id <> frm -> id <> to ->
     accounts (snd (transfer_funds frm to amount c)) !! id = accounts c !! id).
Proof.
  intros Hrow Hle Hne Hamount Hdebit Hcredit.
  rewrite (transfer_funds_full frm to amount balance c Hrow Hle Hamount Hdebit)
    by (rewrite fits_after_debit by exact Hne; exact Hcredit).
  simpl. split; [reflexivity |]. split; [reflexivity |].
  split; [reflexivity |]. split; [| split].
  - rewrite lookup_alter_ne by congruence. rewrite lookup_alter_eq, Hrow. reflexivity.
  - intros credit Hto. rewrite lookup_alter_eq, lookup_alter_ne, Hto by congruence.
    reflexivity.
  - intros id Hf Ht. rewrite !lookup_alter_ne by congruence. reflexivity.
Qed.

(** [run_transaction] around [transfer_funds], as [main] calls it: when the
    funds do not suffice, the [RuntimeError] of the first attempt comes out
    of [run_transaction] after one call, with no sleep and no retry, and the
    table is the one the block was entered with. *)
Theorem run_transaction_transfer_insufficient
    (random : nat -> Q) (max_retries : Z) (frm to : string) (amount balance : Z)
    (w : world connection) :
  1 <= max_retries ->
  accounts (conn w) !! frm = Some (Some balance) ->
  balance < amount ->
  fst (run_transaction (transfer_funds frm to amount) random max_retries w) =
    Raised (insufficient_funds frm balance amount) /\
  log (snd (run_transaction (transfer_funds frm to amount) random max_retries w)) =
    log w ++ [TxEnter; CallOp 1 (Raised (insufficient_funds frm balance amount));
              LogDebug (GotError (insufficient_funds frm balance amount));
              LogDebug NonSerializationBranch; TxAbort] /\
  accounts (conn (snd (run_transaction (transfer_funds frm to amount) random max_retries w))) =
    accounts (conn w) /\
  snapshots (conn (snd (run_transaction (transfer_funds frm to amount) random max_retries w))) =
    snapshots (conn w).
Proof.
  intros Hpos Hrow Hlt. rewrite run_transaction_eq, range_cons by lia.
  assert (Hrow' : accounts (transaction_enter (conn w)) !! frm = Some (Some balance))
    by exact Hrow.
  pose proof (transfer_funds_short frm to amount balance _ Hrow' Hlt) as Hop.
  rewrite (retry_loop_fatal _ _ _ _ _ (World (transaction_enter (conn w)) _ _) _ _ Hop eq_refl).
  simpl. rewrite <- !app_assoc. repeat split.
Qed.

(** A call of [run_transaction] around a transfer that goes through. *)
Lemma run_transaction_transfer_eq (random : nat -> Q) (max_retries : Z)
    (frm to : string) (amount balance : Z) (w : world connection) :
  1 <= max_retries ->
  accounts (conn w) !! frm = Some (Some balance) ->
  amount <= balance ->
  is_int amount = true ->
  is_int (balance - amount) = true ->
  fits amount (alter (option_map (fun b => b - amount)) frm (accounts (conn w)) !! to) = true ->
  run_transaction (transfer_funds frm to amount) random max_retries w =
  (Returned tt,
   World
     (Connection
        (alter (option_map (fun b => b + amount)) to
           (alter (option_map (fun b => b - amount)) frm (accounts (conn w))))
        (snapshots (conn w))
        (issued (conn w)
         ++ [SelectBalance frm; UpdateBalanceMinus amount frm; UpdateBalancePlus amount to]))
     (draws w) (log w ++ [TxEnter; CallOp 1 (Returned tt); TxCommit])).
Proof.
  intros Hpos Hrow Hle Hamount Hdebit Hcredit.
  rewrite (run_transaction_first_attempt _ random max_retries w Hpos).
  assert (Hrow' : accounts (transaction_enter (conn w)) !! frm = Some (Some balance))
    by exact Hrow.
  rewrite (transfer_funds_full frm to amount balance _ Hrow' Hle Hamount Hdebit Hcredit).
  reflexivity.
Qed.

(** [run_transaction] around [transfer_funds] when the funds suffice and
    the amount and the new balances fit the column: one call, no sleep, the
    block commits, and the table holds the moved amount. *)
Theorem run_transaction_transfer_commits
    (random : nat -> Q) (max_retries : Z) (frm to : string) (amount balance : Z)
    (w : world connection) :
  1 <= max_retries ->
  accounts (conn w) !! frm = Some (Some balance) ->
  amount <= balance ->
  frm <> to ->
  is_int amount = true ->
  is_int (balance - amount) = true ->
  fits amount (accounts (conn w) !! to) = true ->
  fst (run_transaction (transfer_funds frm to amount) random max_retries w) = Returned tt /\
  log (snd (run_transaction (transfer_funds frm to amount) random max_retries w)) =
    log w ++ [TxEnter; CallOp 1 (Returned tt); TxCommit] /\
  accounts (conn (snd (run_transaction (transfer_funds frm to amount) random max_retries w)))
    !! frm = Some (Some (balance - amount)) /\
  (forall credit, accounts (conn w) !! to = Some (Some credit) ->
     accounts (conn (snd (run_transaction (transfer_funds frm to amount) random max_retries w)))
       !! to = Some (Some (credit + amount))) /\
  snapshots (conn (snd (run_transaction (transfer_funds frm to amount) random max_retries w))) =
    snapshots (conn w).
Proof.
  intros Hpos Hrow Hle Hne Hamount Hdebit Hcredit.
  rewrite (run_transaction_transfer_eq random max_retries frm to amount balance w
             Hpos Hrow Hle Hamount Hdebit)
    by (rewrite fits_after_debit by exact Hne; exact Hcredit).
  simpl. split; [reflexivity |]. split; [reflexivity |].
  split; [| split; [| reflexivity]].
  - rewrite lookup_alter_ne by congruence. rewrite lookup_alter_eq, Hrow. reflexivity.
  - intros credit Hto. rewrite lookup_alter_eq, lookup_alter_ne, Hto by congruence.
    reflexivity.
Qed.

(** ** More on [transfer_funds] *)

Lemma total_balance_delete (table : gmap string (option Z)) (id : string) (row : option Z) :
  table !! id = Some row ->
  total_balance table = default 0 row + total_balance (delete id table).
Proof.
  intros Hrow. unfold total_balance.
  apply (map_fold_delete_L (fun _ balance acc => default 0 balance + acc) 0 id row table);
    [intros; lia | exact Hrow].
Qed.

(** An UPDATE of one row moves the sum of the balances by what it adds to
    the row. *)
Lemma total_balance_alter (table : gmap string (option Z)) (id : string) (balance : Z)
    (f : Z -> Z) :
  table !! id = Some (Some balance) ->
  total_balance (alter (option_map f) id table) = total_balance table - balance + f balance.
Proof.
  intros Hrow.
  rewrite (total_balance_delete table id (Some balance) Hrow).
  rewrite (total_balance_delete (alter (option_map f) id table) id (Some (f balance))).
  - rewrite delete_alter_eq. simpl. lia.
  - rewrite lookup_alter_eq, Hrow. reflexivity.
Qed.

(** When both accounts are in the table, with balances that are not NULL,
    the funds suffice, and the amount and the two new balances fit the
    column, a transfer leaves the sum of all balances as it was, also when
    the two accounts are the same. *)
Theorem transfer_funds_conserves_total
    (frm to : string) (amount balance credit : Z) (c : connection) :
  accounts c !! frm = Some (Some balance) ->
  accounts c !! to = Some (Some credit) ->
  amount <= balance ->
  is_int amount = true ->
  is_int (balance - amount) = true ->
  is_int (credit + amount) = true ->
  fst (transfer_funds frm to amount c) = Returned tt /\
  total_balance (accounts (snd (transfer_funds frm to amount c))) = total_balance (accounts c).
Proof.
  intros Hfrm Hto Hle Hamount Hdebit Hcredit.
  destruct (decide (frm = to)) as [-> | Hne].
  - assert (credit = balance) as -> by congruence.
    rewrite (transfer_funds_full to to amount balance c Hfrm Hle Hamount Hdebit).
    + simpl. split; [reflexivity |].
      rewrite (total_balance_alter _ to (balance - amount)).
      * rewrite (total_balance_alter _ to balance) by exact Hfrm. lia.
      * rewrite lookup_alter_eq, Hfrm. reflexivity.
    + rewrite lookup_alter_eq, Hfrm. simpl.
      destruct (Z_le_gt_dec 0 amount).
      * apply (is_int_between (balance - amount) (balance + amount)); [assumption .. | lia].
      * apply (is_int_between (balance + amount) (balance - amount)); [assumption .. | lia].
  - rewrite (transfer_funds_full frm to amount balance c Hfrm Hle Hamount Hdebit).
    + simpl. split; [reflexivity |].
      rewrite (total_balance_alter _ to credit).
      * rewrite (total_balance_alter _ frm balance) by exact Hfrm. lia.
      * rewrite lookup_alter_ne by exact Hne. exact Hto.
    + rewrite fits_after_debit, Hto by exact Hne. exact Hcredit.
Qed.

(** When the account to credit is not in the table, the transfer still
    returns: the first UPDATE takes [amount] from [frm], the second one
    matches no row, and the sum of all balances is [amount] lower. *)
Theorem transfer_funds_missing_to (frm to : string) (amount balance : Z) (c : connection) :
  accounts c !! frm = Some (Some balance) ->
  accounts c !! to = None ->
  amount <= balance ->
  is_int amount = true ->
  is_int (balance - amount) = true ->
  fst (transfer_funds frm to amount c) = Returned tt /\
  accounts (snd (transfer_funds frm to amount c)) !! frm = Some (Some (balance - amount)) /\
  accounts (snd (transfer_funds frm to amount c)) !! to = None /\
  total_balance (accounts (snd (transfer_funds frm to amount c))) =
    total_balance (accounts c) - amount.
Proof.
  intros Hfrm Hto Hle Hamount Hdebit.
  assert (Hne : frm <> to) by congruence.
  assert (Hto' : alter (option_map (fun b => b - amount)) frm (accounts c) !! to = None)
    by (rewrite lookup_alter_ne by exact Hne; exact Hto).
  rewrite (transfer_funds_full frm to amount balance c Hfrm Hle Hamount Hdebit)
    by (rewrite Hto'; reflexivity).
  simpl. rewrite (alter_id' _ _ to Hto').
  split; [reflexivity |]. split; [rewrite lookup_alter_eq, Hfrm; reflexivity |].
  split; [exact Hto' |].
  rewrite (total_balance_alter _ frm balance) by exact Hfrm. lia.
Qed.

(** When the account to debit is not in the table, or its balance is NULL,
    [transfer_funds] raises a [TypeError] after the SELECT: no UPDATE is
    sent and the table is as it was. *)
Theorem transfer_funds_no_balance (frm to : string) (amount : Z) (c : connection) :
  accounts c !! frm = None \/ accounts c !! frm = Some None ->
  (exists msg, fst (transfer_funds frm to amount c) = Raised (TypeError msg)) /\
  accounts (snd (transfer_funds frm to amount c)) = accounts c /\
  issued (snd (transfer_funds frm to amount c)) = issued c ++ [SelectBalance frm].
Proof.
  intros [Hrow | Hrow]; unfold transfer_funds, fetchrow_balance; rewrite Hrow; simpl; eauto.
Qed.

(** A transfer from an account to itself, of an amount that fits the column
    and leaves a balance that does, changes no balance. *)
Theorem transfer_funds_to_itself (id : string) (amount balance : Z) (c : connection) :
  accounts c !! id = Some (Some balance) ->
  amount <= balance ->
  is_int amount = true ->
  is_int (balance - amount) = true ->
  is_int balance = true ->
  fst (transfer_funds id id amount c) = Returned tt /\
  accounts (snd (transfer_funds id id amount c)) = accounts c.
Proof.
  intros Hrow Hle Hamount Hdebit Hbalance.
  rewrite (transfer_funds_full id id amount balance c Hrow Hle Hamount Hdebit).
  - simpl. split; [reflexivity |].
    rewrite alter_alter_eq. apply alter_id.
    intros [b|] _; simpl; [f_equal; lia | reflexivity].
  - rewrite lookup_alter_eq, Hrow. simpl.
    replace (balance - amount + amount) with balance by lia. exact Hbalance.
Qed.

(** An amount that does not fit the parameter of the UPDATE, 64 bits wide,
    is refused when the first UPDATE is to be sent: with a balance that is
    not below it, [transfer_funds] raises after the SELECT alone, and the
    table is as it was. *)
Theorem transfer_funds_amount_out_of_range (frm to : string) (amount balance : Z)
    (c : connection) :
  accounts c !! frm = Some (Some balance) ->
  amount <= balance ->
  is_int amount = false ->
  transfer_funds frm to amount c =
  (Raised (invalid_argument amount),
   Connection (accounts c) (snapshots c) (issued c ++ [SelectBalance frm])).
Proof.
  intros Hrow Hle Hamount.
  rewrite (transfer_funds_updates frm to amount balance c Hrow Hle).
  unfold execute_balance_minus. rewrite Hamount. reflexivity.
Qed.

(** When the credit would take the balance of [to] out of the column,
    [transfer_funds] has debited [frm] by the time the second UPDATE raises:
    alone it leaves the debit in the table, without the credit; inside
    [run_transaction] the exception aborts the block, and the table is the
    one the call found, after a single attempt. *)
Theorem run_transaction_undoes_debit
    (random : nat -> Q) (max_retries : Z) (frm to : string) (amount balance credit : Z)
    (w : world connection) :
  1 <= max_retries ->
  accounts (conn w) !! frm = Some (Some balance) ->
  accounts (conn w) !! to = Some (Some credit) ->
  amount <= balance ->
  frm <> to ->
  is_int amount = true ->
  is_int (balance - amount) = true ->
  is_int (credit + amount) = false ->
  (fst (transfer_funds frm to amount (conn w)) = Raised integer_out_of_range /\
   accounts (snd (transfer_funds frm to amount (conn w))) !! frm
     = Some (Some (balance - amount)) /\
   accounts (snd (transfer_funds frm to amount (conn w))) !! to = Some (Some credit)) /\
  (fst (run_transaction (transfer_funds frm to amount) random max_retries w)
     = Raised integer_out_of_range /\
   accounts (conn (snd (run_transaction (transfer_funds frm to amount) random max_retries w)))
     = accounts (conn w) /\
   snapshots (conn (snd (run_transaction (transfer_funds frm to amount) random max_retries w)))
     = snapshots (conn w) /\
   log (snd (run_transaction (transfer_funds frm to amount) random max_retries w)) =
     log w ++ [TxEnter; CallOp 1 (Raised integer_out_of_range);
               LogDebug (GotError integer_out_of_range);
               LogDebug NonSerializationBranch; TxAbort]).
Proof.
  intros Hpos Hfrm Hto Hle Hne Hamount Hdebit Hcredit.
  assert (Hrun : forall c : connection,
    accounts c = accounts (conn w) ->
    transfer_funds frm to amount c =
    (Raised integer_out_of_range,
     Connection (alter (option_map (fun b => b - amount)) frm (accounts c)) (snapshots c)
       ((issued c ++ [SelectBalance frm]) ++ [UpdateBalanceMinus amount frm]
        ++ [UpdateBalancePlus amount to]))).
  { intros c Hc.
    assert (Hfrm' : accounts c !! frm = Some (Some balance)) by (rewrite Hc; exact Hfrm).
    rewrite (transfer_funds_updates frm to amount balance c Hfrm' Hle).
    unfold execute_balance_minus. cbn [accounts snapshots issued].
    rewrite Hamount, Hfrm'. cbn [negb fits].
    change (balance + - amount) with (balance - amount). rewrite Hdebit.
    unfold execute_balance_plus. cbn [accounts snapshots issued].
    rewrite Hamount, lookup_alter_ne, Hc, Hto by exact Hne. cbn [negb fits].
    rewrite Hcredit, <- !app_assoc. reflexivity. }
  split.
  - rewrite (Hrun (conn w) eq_refl). simpl. split; [reflexivity |].
    split; [rewrite lookup_alter_eq, Hfrm; reflexivity |].
    rewrite lookup_alter_ne by exact Hne. exact Hto.
  - rewrite (run_transaction_first_attempt _ random max_retries w Hpos).
    assert (Hc : accounts (transaction_enter (conn w)) = accounts (conn w)) by reflexivity.
    rewrite (Hrun (transaction_enter (conn w)) Hc).
    simpl. repeat split.
Qed.

(** ** More on [run_transaction] *)

Lemma delay_high_pos (retry : Z) : (0 < delay_high retry)%Q.
Proof.
  unfold delay_high, fmul at 1. apply round_float_pos_lt.
  apply Qmult_lt_0_compat; [apply fmul_pow2_0_1_pos | reflexivity].
Qed.

Lemma total_delay_high_nonneg (retries : list Z) : (0 <= total (map delay_high retries))%Q.
Proof.
  unfold total. induction retries as [|r rest IH]; simpl; [apply Qle_refl |].
  pose proof (delay_high_pos r). lra.
Qed.

(** The longest delays of the attempts [start .. start + n - 1] together. *)
Lemma total_delay_high_range (n : nat) :
  forall start : Z,
    (total (map delay_high (range start (start + Z.of_nat n)))
     == (2 ^ (start + Z.of_nat n) - 2 ^ start) * delay_high 0)%Q.
Proof.
  induction n as [|n IH]; intros start.
  - rewrite range_nil by lia. rewrite Z.add_0_r. unfold total. simpl. ring.
  - rewrite range_cons by lia.
    replace (start + Z.of_nat (S n)) with (start + 1 + Z.of_nat n) by lia.
    unfold total in *. simpl. rewrite IH.
    rewrite (delay_high_scale start), (delay_high_scale 0).
    rewrite (pow2_succ start). change (2 ^ 0)%Q with 1%Q. ring.
Qed.

Section RunnerBounds.
Context {C : Type} `{Session C}.
Variable op : C -> outcome unit * C.
Variable random : nat -> Q.

Local Abbreviation retry_loop := (retry_loop op random).
Local Abbreviation run_transaction := (run_transaction op random).

Lemma slept_app (xs ys : list event) : (slept (xs ++ ys) == slept xs + slept ys)%Q.
Proof.
  induction xs as [|x xs IH]; simpl; [ring |].
  destruct x; rewrite ?IH; try reflexivity. ring.
Qed.

Lemma slept_fatal_events e : slept (fatal_events e) = 0%Q.
Proof. unfold fatal_events. destruct (is_Exception e); reflexivity. Qed.

(** The loop calls the unit of work at most once for every attempt number
    it is given, sleeps at most as often, and draws one random number for
    every sleep; with draws in [[0, 1)] it sleeps no longer in all than the
    longest delays of its attempts together. *)
Lemma retry_loop_bounded max_retries retries (w : world C) :
  exists evs,
    log (snd (retry_loop max_retries retries w)) = log w ++ evs /\
    (count is_call evs <= length retries)%nat /\
    (count is_sleep evs <= count is_call evs)%nat /\
    draws (snd (retry_loop max_retries retries w)) = (draws w + count is_sleep evs)%nat /\
    ((forall i, 0 <= random i /\ random i < 1) ->
     slept evs <= total (map delay_high retries))%Q.
Proof.
  revert w. induction retries as [|retry rest IH]; intros w.
  - exists []. simpl. rewrite app_nil_r, Nat.add_0_r.
    repeat split; try lia. intros _. apply Qle_refl.
  - assert (Hrest : (0 <= total (map delay_high (retry :: rest)))%Q)
      by apply total_delay_high_nonneg.
    destruct (op (conn w)) as [[u|e] c'] eqn:Hop.
    + rewrite (retry_loop_returned _ _ _ _ _ _ _ _ Hop). simpl.
      exists [CallOp retry (Returned tt)]. simpl. rewrite Nat.add_0_r.
      repeat split; try lia. intros _. exact Hrest.
    + destruct (is_SerializationError e) eqn:He.
      * destruct (rollback c') as [[v|x] c''] eqn:Hrb.
        -- destruct (Z_lt_ge_dec retry 1024) as [Hlt | Hge].
           ++ rewrite (retry_loop_conflict _ _ _ _ _ _ _ _ _ _ Hop He Hrb Hlt).
              destruct (IH (World c'' (S (draws w))
                (log w ++ CallOp retry (Raised e)
                   :: conflict_events retry e (random (draws w)))))
                as (evs & Hlog & Hcall & Hsleep & Hdraws & Hslept).
              exists (CallOp retry (Raised e)
                        :: conflict_events retry e (random (draws w)) ++ evs).
              rewrite Hlog, Hdraws. simpl. rewrite <- app_assoc. simpl.
              repeat split; try lia.
              intros Hin. specialize (Hslept Hin). destruct (Hin (draws w)) as [H0 H1].
              destruct (sleep_seconds_interval retry (random (draws w)) H0 H1) as [_ Hhi].
              unfold total in *. simpl. lra.
           ++ assert (Hge' : 1024 <= retry) by lia.
              rewrite (retry_loop_overflow _ _ _ _ _ _ _ _ _ _ Hop He Hrb Hge'). simpl.
              eexists. split; [reflexivity |]. simpl. rewrite Nat.add_0_r.
              repeat split; try lia. intros _. exact Hrest.
        -- rewrite (retry_loop_rollback_raises _ _ _ _ _ _ _ _ _ _ Hop He Hrb). simpl.
           eexists. split; [reflexivity |]. simpl. rewrite Nat.add_0_r.
           repeat split; try lia. intros _. exact Hrest.
      * rewrite (retry_loop_fatal _ _ _ _ _ _ _ _ Hop He). simpl.
        exists (CallOp retry (Raised e) :: fatal_events e).
        destruct (fatal_events_counts e) as (F1 & F2 & _).
        simpl. rewrite F1, F2, Nat.add_0_r, slept_fatal_events.
        repeat split; try lia. intros _. exact Hrest.
Qed.

(** Whatever the unit of work does, a call of [run_transaction] calls it
    at most [max_retries] times (never for [max_retries <= 0]), sleeps at
    most as often as it calls it, and draws exactly one random number for
    every sleep. *)
Theorem run_transaction_attempts_bounded (max_retries : Z) (w : world C) :
  exists evs,
    log (snd (run_transaction max_retries w)) = log w ++ evs /\
    Z.of_nat (count is_call evs) <= Z.max 0 max_retries /\
    (count is_sleep evs <= count is_call evs)%nat /\
    draws (snd (run_transaction max_retries w)) = (draws w + count is_sleep evs)%nat.
Proof.
  rewrite run_transaction_eq.
  destruct (retry_loop_bounded max_retries (range 1 (max_retries + 1))
    (World (transaction_enter (conn w)) (draws w) (log w ++ [TxEnter])))
    as (evs & Hlog & Hcall & Hsleep & Hdraws & _).
  rewrite range_length in Hcall.
  destruct (retry_loop _ _ _) as [[[]|e] w']; simpl in *.
  - exists (TxEnter :: evs ++ [TxCommit]). rewrite Hlog, <- !app_assoc. simpl.
    rewrite !count_app. simpl. repeat split; lia.
  - exists (TxEnter :: evs ++ [TxAbort]). rewrite Hlog, <- !app_assoc. simpl.
    rewrite !count_app. simpl. repeat split; lia.
Qed.

(** With the draws of the random generator in [[0, 1)], a call of
    [run_transaction] with [max_retries >= 0] sleeps no longer in all than
    [2 ^ (max_retries + 1) - 2] times the float [0.1 * 1.5], whatever the
    unit of work does. *)
Theorem run_transaction_sleeps_at_most (max_retries : Z) (w : world C) :
  0 <= max_retries ->
  (forall i, (0 <= random i)%Q /\ (random i < 1)%Q) ->
  exists evs,
    log (snd (run_transaction max_retries w)) = log w ++ evs /\
    (slept evs <= (2 ^ (max_retries + 1) - 2) * delay_high 0)%Q /\
    (delay_high 0 == 5404319552844596 # 36028797018963968)%Q.
Proof.
  intros Hpos Hin. rewrite run_transaction_eq.
  destruct (retry_loop_bounded max_retries (range 1 (max_retries + 1))
    (World (transaction_enter (conn w)) (draws w) (log w ++ [TxEnter])))
    as (evs & Hlog & _ & _ & _ & Hslept).
  specialize (Hslept Hin).
  pose proof (total_delay_high_range (Z.to_nat max_retries) 1) as Htotal.
  replace (1 + Z.of_nat (Z.to_nat max_retries)) with (max_retries + 1) in Htotal by lia.
  rewrite Htotal in Hslept. change (2 ^ 1)%Q with 2%Q in Hslept.
  assert (Hval : (delay_high 0 == 5404319552844596 # 36028797018963968)%Q)
    by (vm_compute; reflexivity).
  destruct (retry_loop _ _ _) as [[[]|e] w']; simpl in *.
  - exists (TxEnter :: evs ++ [TxCommit]). rewrite Hlog, <- !app_assoc. simpl.
    split; [reflexivity |]. split; [| exact Hval].
    rewrite slept_app. simpl. lra.
  - exists (TxEnter :: evs ++ [TxAbort]). rewrite Hlog, <- !app_assoc. simpl.
    split; [reflexivity |]. split; [| exact Hval].
    rewrite slept_app. simpl. lra.
Qed.

End RunnerBounds.

(** ** [run_transaction] on the accounts table *)

Lemma transfer_funds_keeps_snapshots (frm to : string) (amount : Z) :
  keeps_snapshots (transfer_funds frm to amount).
Proof.
  intros c. unfold transfer_funds, fetchrow_balance.
  destruct (accounts c !! frm) as [[balance|]|]; simpl; try reflexivity.
  destruct (balance <? amount); [reflexivity |].
  unfold execute_balance_minus. cbn [accounts snapshots issued].
  destruct (negb (is_int amount)) eqn:Hamount; [reflexivity |].
  destruct (fits (- amount) _); [| reflexivity].
  unfold execute_balance_plus. cbn [accounts snapshots issued].
  rewrite Hamount. destruct (fits amount _); reflexivity.
Qed.

(** For a unit of work that opens no transaction block of its own, a call
    of [run_transaction] on the connection of the program that raises, for
    whatever reason, leaves the table as it found it, whatever the unit of
    work wrote before; and every call leaves as many blocks open as it
    found. *)
Theorem run_transaction_atomic (op : connection -> outcome unit * connection)
    (random : nat -> Q) (max_retries : Z) (w : world connection) :
  keeps_snapshots op ->
  snapshots (conn (snd (run_transaction op random max_retries w))) = snapshots (conn w) /\
  (forall e, fst (run_transaction op random max_retries w) = Raised e ->
     accounts (conn (snd (run_transaction op random max_retries w))) = accounts (conn w)).
Proof.
  intros Hkeep.
  destruct (Z_le_gt_dec max_retries 0) as [Hle | Hgt].
  - rewrite (run_transaction_no_attempt op random max_retries w Hle). simpl. auto.
  - assert (Hpos : 1 <= max_retries) by lia.
    rewrite (run_transaction_first_attempt op random max_retries w Hpos).
    pose proof (Hkeep (transaction_enter (conn w))) as Hsn.
    destruct (op (transaction_enter (conn w))) as [[[]|e] c'] eqn:Hop; simpl in Hsn |- *.
    + rewrite Hsn. split; [reflexivity | discriminate].
    + destruct (is_SerializationError e); simpl; rewrite Hsn; auto.
Qed.

(** ** [create_accounts], [delete_accounts] and [print_balances] *)

Lemma total_balance_insert_new (table : gmap string (option Z)) (id : string) (row : option Z) :
  table !! id = None ->
  total_balance (<[id := row]> table) = default 0 row + total_balance table.
Proof.
  intros Hnew. unfold total_balance.
  apply (map_fold_insert_L (fun _ balance acc => default 0 balance + acc) 0 id row table);
    [intros; lia | exact Hnew].
Qed.

(** [create_accounts] returns the two ids in the order it drew them, gives
    the first a balance of 1000 and the second a balance of 250, and touches
    no other row; when the two ids are new to the table, the table has two
    rows more and its balances sum to 1250 more. *)
Theorem create_accounts_rows (id1 id2 : string) (c : connection) :
  id1 <> id2 ->
  fst (create_accounts id1 id2 c) = [id1; id2] /\
  accounts (snd (create_accounts id1 id2 c)) !! id1 = Some (Some 1000) /\
  accounts (snd (create_accounts id1 id2 c)) !! id2 = Some (Some 250) /\
  (forall id, id <> id1 -> id <> id2 ->
     accounts (snd (create_accounts id1 id2 c)) !! id = accounts c !! id) /\
  (accounts c !! id1 = None -> accounts c !! id2 = None ->
     size (accounts (snd (create_accounts id1 id2 c))) = S (S (size (accounts c))) /\
     total_balance (accounts (snd (create_accounts id1 id2 c))) =
       total_balance (accounts c) + 1250).
Proof.
  intros Hne. simpl. split; [reflexivity |]. split; [| split; [| split]].
  - rewrite lookup_insert_ne by congruence. apply lookup_insert_eq.
  - apply lookup_insert_eq.
  - intros id H1 H2. rewrite !lookup_insert_ne by congruence. reflexivity.
  - intros Hnew1 Hnew2.
    assert (Hnew2' : <[id1 := Some 1000]> (accounts c) !! id2 = None)
      by (rewrite lookup_insert_ne by exact Hne; exact Hnew2).
    split.
    + rewrite map_size_insert_None by exact Hnew2'.
      rewrite map_size_insert_None by exact Hnew1. reflexivity.
    + rewrite total_balance_insert_new by exact Hnew2'.
      rewrite total_balance_insert_new by exact Hnew1. simpl. lia.
Qed.

Lemma print_rows_all (rows : list (string * option Z)) :
  Forall (fun row => snd row <> None) rows ->
  forall out,
    print_rows rows out =
    (Returned tt,
     out ++ map (fun row : string * option Z =>
                   balance_line (fst row) (default 0 (snd row))) rows).
Proof.
  induction 1 as [|[id [balance|]] rows Hrow _ IH]; intros out; simpl.
  - rewrite app_nil_r. reflexivity.
  - rewrite IH, <- app_assoc. reflexivity.
  - contradiction.
Qed.

Lemma print_rows_null (rows : list (string * option Z)) (id : string) :
  In (id, None) rows ->
  forall out, exists msg printed,
    print_rows rows out = (Raised (TypeError msg), out ++ printed) /\
    (length printed < length rows)%nat.
Proof.
  induction rows as [|[id' [balance|]] rows IH]; intros Hin out; simpl in *.
  - contradiction.
  - destruct Hin as [Heq | Hin]; [discriminate |].
    destruct (IH Hin (out ++ [balance_line id' balance])) as (msg & printed & Heq & Hlen).
    exists msg, (balance_line id' balance :: printed).
    rewrite Heq, <- app_assoc. simpl. split; [reflexivity | lia].
  - exists "unsupported format string passed to NoneType.__format__", [].
    rewrite app_nil_r. split; [reflexivity | simpl; lia].
Qed.

Lemma print_balances_ok (asctime : string) (c : connection) (out : list string) :
  no_null (accounts c) ->
  print_balances asctime c out =
  (Returned tt, out ++ balances_header asctime :: balance_lines (accounts c)).
Proof.
  intros Hnn. unfold print_balances, fetch_accounts, balance_lines.
  rewrite print_rows_all, <- app_assoc; [reflexivity |].
  apply Forall_forall. intros [id row] Hin. simpl.
  apply elem_of_map_to_list in Hin.
  intros ->. exact (Hnn id Hin).
Qed.

(** When no balance of the table is NULL, [print_balances] prints the
    header and then one line for every row, and returns. *)
Theorem print_balances_lines (asctime : string) (c : connection) (out : list string) :
  no_null (accounts c) ->
  print_balances asctime c out =
    (Returned tt, out ++ balances_header asctime :: balance_lines (accounts c)) /\
  length (balance_lines (accounts c)) = size (accounts c).
Proof.
  intros Hnn. split; [apply print_balances_ok, Hnn |].
  unfold balance_lines. rewrite length_map. apply length_map_to_list.
Qed.

(** When some balance of the table is NULL, [print_balances] raises a
    [TypeError], after the header and the lines of fewer rows than the table
    has. *)
Theorem print_balances_null (asctime : string) (c : connection) (out : list string)
    (id : string) :
  accounts c !! id = Some None ->
  exists msg printed,
    print_balances asctime c out =
      (Raised (TypeError msg), out ++ balances_header asctime :: printed) /\
    (length printed < size (accounts c))%nat.
Proof.
  intros Hnull. unfold print_balances, fetch_accounts.
  assert (Hin : In (id, None) (map_to_list (accounts c)))
    by (apply (proj1 (list_elem_of_In _ _)), elem_of_map_to_list; exact Hnull).
  destruct (print_rows_null _ id Hin (out ++ [balances_header asctime]))
    as (msg & printed & Heq & Hlen).
  exists msg, printed. rewrite Heq, <- app_assoc, length_map_to_list in *. auto.
Qed.

(** After [delete_accounts] the table is empty, whatever it held:
    [print_balances] prints the header alone, and a transfer between any two
    accounts raises a [TypeError]. *)
Theorem delete_accounts_empties (c : connection) (asctime : string) (out : list string)
    (frm to : string) (amount : Z) :
  accounts (delete_accounts c) = ∅ /\
  snapshots (delete_accounts c) = snapshots c /\
  print_balances asctime (delete_accounts c) out = (Returned tt, out ++ [balances_header asctime]) /\
  exists msg, fst (transfer_funds frm to amount (delete_accounts c)) = Raised (TypeError msg).
Proof.
  split; [reflexivity |]. split; [reflexivity |]. split.
  - unfold print_balances, fetch_accounts. simpl. rewrite map_to_list_empty. reflexivity.
  - unfold transfer_funds, fetchrow_balance. simpl. rewrite lookup_empty. eauto.
Qed.

(** ** [parse_cmdline] and [main] *)

(** The dsn [main] connects with: the one of the command line, and only
    without one the value of DATABASE_URL. *)
Lemma parse_cmdline_dsn (argv : cmdline) (environ : gmap string string) (url : string) :
  arg_dsn argv = Some url \/ (arg_dsn argv = None /\ environ !! "DATABASE_URL" = Some url) ->
  parse_cmdline argv environ = Returned (Options (flag_verbose argv) url).
Proof.
  unfold parse_cmdline. intros [-> | [-> ->]]; reflexivity.
Qed.

Lemma no_null_insert (table : gmap string (option Z)) (id : string) (balance : Z) :
  no_null table -> no_null (<[id := Some balance]> table).
Proof.
  intros Hnn i. destruct (decide (id = i)) as [<- | Hne].
  - rewrite lookup_insert_eq. discriminate.
  - rewrite lookup_insert_ne by exact Hne. apply Hnn.
Qed.

Lemma pop_two {A} (x y : A) : pop [x; y] = Some (y, [x]) /\ pop [x] = Some (x, []).
Proof. split; reflexivity. Qed.

(** The table after the transfer of [main]. *)
Lemma transfer_after_create (table : gmap string (option Z)) (id1 id2 : string) :
  id1 <> id2 ->
  alter (option_map (fun balance => balance + 100)) id2
    (alter (option_map (fun balance => balance - 100)) id1
       (<[id2 := Some 250]> (<[id1 := Some 1000]> table))) =
  <[id2 := Some 350]> (<[id1 := Some 900]> table).
Proof.
  intros Hne. apply map_eq. intros i.
  destruct (decide (i = id2)) as [-> | H2].
  - rewrite lookup_alter_eq, lookup_alter_ne, !lookup_insert_eq by exact Hne. reflexivity.
  - rewrite lookup_alter_ne, (lookup_insert_ne _ id2) by congruence.
    destruct (decide (i = id1)) as [-> | H1].
    + rewrite lookup_alter_eq, lookup_insert_ne, !lookup_insert_eq by congruence. reflexivity.
    + rewrite lookup_alter_ne, !lookup_insert_ne by congruence. reflexivity.
Qed.


(** With a dsn, a cluster that accepts the connection, two different ids
    and a table without NULL, [main] returns; it prints the balances twice,
    the second time with 100 moved from the account created first (1000) to
    the one created second (250); the transaction makes a single attempt;
    the table is empty in the end and the connection is closed. *)
Theorem main_transfers_and_cleans_up
    (connect : string -> outcome connection) (id1 id2 asctime1 asctime2 : string)
    (random : nat -> Q) (argv : cmdline) (environ : gmap string string)
    (url : string) (c : connection) :
  arg_dsn argv = Some url \/ (arg_dsn argv = None /\ environ !! "DATABASE_URL" = Some url) ->
  connect url = Returned c ->
  id1 <> id2 ->
  no_null (accounts c) ->
  main connect id1 id2 asctime1 asctime2 random argv environ =
  (Returned tt,
   Process
     (Some (Connection ∅ (snapshots c)
              (issued c ++ [SelectBalance id1; UpdateBalanceMinus 100 id1;
                            UpdateBalancePlus 100 id2])))
     (balances_header asctime1
      :: balance_lines (<[id2 := Some 250]> (<[id1 := Some 1000]> (accounts c)))
      ++ balances_header asctime2
      :: balance_lines (<[id2 := Some 350]> (<[id1 := Some 900]> (accounts c))))
     []
     [TxEnter; CallOp 1 (Returned tt); TxCommit]
     true).
Proof.
  intros Hdsn Hconnect Hne Hnn. unfold main.
  rewrite (parse_cmdline_dsn argv environ url Hdsn). unfold main_body. simpl dsn.
  rewrite Hconnect. unfold create_accounts. cbv iota beta.
  rewrite print_balances_ok by (simpl; apply no_null_insert, no_null_insert, Hnn).
  destruct (pop_two id1 id2) as [-> ->].
  rewrite (run_transaction_transfer_eq random 3 id1 id2 100 1000); cycle 1.
  - lia.
  - simpl. rewrite lookup_insert_ne by congruence. apply lookup_insert_eq.
  - lia.
  - reflexivity.
  - reflexivity.
  - simpl. rewrite lookup_alter_ne, lookup_insert_eq by congruence. reflexivity.
  - simpl conn. simpl log. unfold main_after.
    rewrite print_balances_ok; simpl accounts; rewrite transfer_after_create by exact Hne.
    + unfold main_finally, delete_accounts. simpl. rewrite <- ?app_assoc. reflexivity.
    + apply no_null_insert, no_null_insert, Hnn.
Qed.

(** When [asyncpg.connect] raises an exception, [main] logs it as fatal and
    then raises [UnboundLocalError] from its [finally] clause, where [conn]
    is not bound yet; nothing is printed and no connection is closed. *)
Theorem main_connect_fails
    (connect : string -> outcome connection) (id1 id2 asctime1 asctime2 : string)
    (random : nat -> Q) (argv : cmdline) (environ : gmap string string)
    (url : string) (e : exn) :
  arg_dsn argv = Some url \/ (arg_dsn argv = None /\ environ !! "DATABASE_URL" = Some url) ->
  connect url = Raised e ->
  is_Exception e = true ->
  exists msg,
    main connect id1 id2 asctime1 asctime2 random argv environ =
    (Raised (OtherException "UnboundLocalError" msg),
     Process None [] [FatalMessage "database connection failed"; FatalException e] [] false).
Proof.
  intros Hdsn Hconnect He. unfold main.
  rewrite (parse_cmdline_dsn argv environ url Hdsn). unfold main_body. simpl dsn.
  rewrite Hconnect. unfold on_main_exception. rewrite He. unfold main_finally. simpl.
  eauto.
Qed.

(** Without a dsn on the command line and without DATABASE_URL in the
    environment, [main] leaves with [SystemExit] before it connects, prints
    or logs anything. *)
Theorem main_without_dsn
    (connect : string -> outcome connection) (id1 id2 asctime1 asctime2 : string)
    (random : nat -> Q) (argv : cmdline) (environ : gmap string string) :
  arg_dsn argv = None ->
  environ !! "DATABASE_URL" = None ->
  main connect id1 id2 asctime1 asctime2 random argv environ =
  (Raised (BaseOnly "SystemExit"), Process None [] [] [] false).
Proof.
  intros Harg Henv. unfold main, parse_cmdline. rewrite Harg, Henv. reflexivity.
Qed.

(** When the table the cluster already has holds a row with a NULL balance
    (CREATE TABLE IF NOT EXISTS keeps it, and the UPSERT does not touch it),
    the first [print_balances] of [main] raises [TypeError]; [main] logs it
    as a failure of the database connection and returns without raising: the
    transfer is not attempted, nothing is deleted, so that the two new
    accounts stay in the table with their 1000 and 250, and the connection is
    closed. *)
Theorem main_reports_failure_and_keeps_accounts
    (connect : string -> outcome connection) (id1 id2 asctime1 asctime2 : string)
    (random : nat -> Q) (argv : cmdline) (environ : gmap string string)
    (url : string) (c : connection) (id : string) :
  arg_dsn argv = Some url \/ (arg_dsn argv = None /\ environ !! "DATABASE_URL" = Some url) ->
  connect url = Returned c ->
  accounts c !! id = Some None ->
  id <> id1 ->
  id <> id2 ->
  exists msg printed,
    main connect id1 id2 asctime1 asctime2 random argv environ =
    (Returned tt,
     Process
       (Some (Connection (<[id2 := Some 250]> (<[id1 := Some 1000]> (accounts c)))
                (snapshots c) (issued c)))
       (balances_header asctime1 :: printed)
       [FatalMessage "database connection failed"; FatalException (TypeError msg)]
       []
       true) /\
    (length printed
     < size (<[id2 := Some 250%Z]> (<[id1 := Some 1000%Z]> (accounts c))))%nat.
Proof.
  intros Hdsn Hconnect Hnull H1 H2. unfold main.
  rewrite (parse_cmdline_dsn argv environ url Hdsn). unfold main_body. simpl dsn.
  rewrite Hconnect. unfold create_accounts. cbv iota beta.
  set (table := <[id2 := Some 250]> (<[id1 := Some 1000]> (accounts c))).
  assert (Hin : In (id, None) (map_to_list table)).
  { apply (proj1 (list_elem_of_In _ _)), elem_of_map_to_list. unfold table.
    rewrite !lookup_insert_ne by congruence. exact Hnull. }
  unfold print_balances, fetch_accounts. cbn [accounts].
  destruct (print_rows_null _ id Hin ([] ++ [balances_header asctime1]))
    as (msg & printed & Heq & Hlen).
  rewrite Heq. exists msg, printed.
  rewrite length_map_to_list in Hlen. split; [reflexivity | exact Hlen].
Qed.

(** * Worked runs *)

Lemma no_null_empty : no_null ∅.
Proof. intros id. rewrite lookup_empty. discriminate. Qed.

Lemma no_null_two_accounts : no_null (accounts two_accounts).
Proof. apply no_null_insert, no_null_insert, no_null_empty. Qed.

(** ** [run_transaction] *)

Lemma run_transaction_stops_at_first_conflict_witness :
  fst (run_transaction (refused_transfer "alice" "bob" 100) (fun _ => 0%Q) 2
         (World two_accounts 0%nat [])) = Raised no_rollback /\
  (forall n, no_rollback <> retries_exhausted n) /\
  exists evs,
    log (snd (run_transaction (refused_transfer "alice" "bob" 100) (fun _ => 0%Q) 2
                (World two_accounts 0%nat []))) = [] ++ evs /\
    count is_call evs = 1%nat /\
    count is_sleep evs = 0%nat /\
    count is_rollback evs = 0%nat.
Proof.
  apply (run_transaction_stops_at_first_conflict (refused_transfer "alice" "bob" 100)
           (fun _ => 0%Q) 2 (World two_accounts 0%nat [])).
  - lia.
  - intros c. eexists _, _. split; reflexivity.
Defined.

Lemma run_transaction_succeeds_only_at_once_witness :
  ((fst (run_transaction (transfer_refused_once "alice" "bob" 100) (fun _ => 0%Q) 3
           (World two_accounts 0%nat [])) = Returned tt <->
    fst (transfer_refused_once "alice" "bob" 100 (transaction_enter two_accounts))
      = Returned tt) /\
   (forall e,
      fst (transfer_refused_once "alice" "bob" 100 (transaction_enter two_accounts))
        = Raised e ->
      is_SerializationError e = true ->
      fst (run_transaction (transfer_refused_once "alice" "bob" 100) (fun _ => 0%Q) 3
             (World two_accounts 0%nat [])) = Raised no_rollback) /\
   exists evs,
     log (snd (run_transaction (transfer_refused_once "alice" "bob" 100) (fun _ => 0%Q) 3
                 (World two_accounts 0%nat []))) = [] ++ evs /\
     count is_call evs = 1%nat /\
     count is_sleep evs = 0%nat) /\
  fst (transfer_refused_once "alice" "bob" 100 (transaction_enter two_accounts))
    = Raised (SerializationError "restart transaction") /\
  fst (transfer_refused_once "alice" "bob" 100
         (snd (transfer_refused_once "alice" "bob" 100 (transaction_enter two_accounts))))
    = Returned tt.
Proof.
  split; [| split; vm_compute; reflexivity].
  apply (run_transaction_succeeds_only_at_once (transfer_refused_once "alice" "bob" 100)
           (fun _ => 0%Q) 3 (World two_accounts 0%nat [])).
  lia.
Defined.

Lemma run_transaction_fatal_on_attempt_witness :
  fst (run_transaction (H := counting_session)
         (conflict_until 1 (Raised (OtherException "UniqueViolationError" "constraint violation")))
         (fun _ => 0%Q) 5 (World 0%nat 0%nat [])) =
    Raised (OtherException "UniqueViolationError" "constraint violation") /\
  exists evs pre,
    log (snd (run_transaction (H := counting_session)
                (conflict_until 1 (Raised (OtherException "UniqueViolationError" "constraint violation")))
                (fun _ => 0%Q) 5 (World 0%nat 0%nat []))) = [] ++ evs /\
    evs = pre ++ CallOp (Z.of_nat 1)
                   (Raised (OtherException "UniqueViolationError" "constraint violation"))
                 :: fatal_events (OtherException "UniqueViolationError" "constraint violation")
                 ++ [TxAbort] /\
    count is_call evs = 1%nat /\
    count is_sleep evs = (1 - 1)%nat /\
    count is_rollback evs = (1 - 1)%nat.
Proof.
  apply (run_transaction_fatal_on_attempt (H := counting_session)
           (conflict_until 1 (Raised (OtherException "UniqueViolationError" "constraint violation")))
           (fun _ => 0%Q) 5 1 (World 0%nat 0%nat []) 0%nat
           (OtherException "UniqueViolationError" "constraint violation") 1%nat).
  - lia.
  - lia.
  - reflexivity.
  - reflexivity.
  - reflexivity.
Defined.


Lemma run_transaction_conflict_without_rollback_witness :
  rollback (Connection (accounts two_accounts) [accounts two_accounts] [SelectBalance "alice"])
    = (Raised no_rollback,
       Connection (accounts two_accounts) [accounts two_accounts] [SelectBalance "alice"]) /\
  run_transaction (refused_transfer "alice" "bob" 100) (fun _ => 0%Q) 3
    (World two_accounts 0%nat []) =
  (Raised no_rollback,
   World
     (transaction_abort
        (Connection (accounts two_accounts) [accounts two_accounts] [SelectBalance "alice"]))
     0%nat
     ([] ++ [TxEnter; CallOp 1 (Raised (SerializationError "restart transaction"));
             LogDebug (GotError (SerializationError "restart transaction")); TxAbort])).
Proof.
  apply (run_transaction_conflict_without_rollback (refused_transfer "alice" "bob" 100)
           (fun _ => 0%Q) 3 (World two_accounts 0%nat [])
           (SerializationError "restart transaction")
           (Connection (accounts two_accounts) [accounts two_accounts] [SelectBalance "alice"])).
  - lia.
  - reflexivity.
  - reflexivity.
Defined.

Lemma run_transaction_no_attempt_witness :
  run_transaction (H := counting_session) conflict_always (fun _ => 0%Q) (-3)
    (World 0%nat 0%nat []) =
  (Raised (ValueError ("transaction did not succeed after " +:+ str_int (-3) +:+ " retries")),
   World (transaction_abort (Session := counting_session)
            (transaction_enter (Session := counting_session) 0%nat)) 0%nat
     ([] ++ [TxEnter; TxAbort])).
Proof.
  apply (run_transaction_no_attempt (H := counting_session) conflict_always
           (fun _ => 0%Q) (-3) (World 0%nat 0%nat [])).
  lia.
Defined.

Lemma run_transaction_sleeps_at_most_witness :
  exists evs,
    log (snd (run_transaction (H := counting_session) conflict_always (fun _ => (1 # 2)%Q) 3
                (World 0%nat 0%nat []))) = [] ++ evs /\
    (slept evs <= (2 ^ (3 + 1) - 2) * delay_high 0)%Q /\
    (delay_high 0 == 5404319552844596 # 36028797018963968)%Q.
Proof.
  apply (run_transaction_sleeps_at_most (H := counting_session) conflict_always
           (fun _ => (1 # 2)%Q) 3 (World 0%nat 0%nat [])).
  - lia.
  - intros i. split; [discriminate | reflexivity].
Defined.

(** ** [transfer_funds] *)

Lemma transfer_funds_insufficient_witness :
  fst (transfer_funds "bob" "alice" 300 two_accounts) =
    Raised (insufficient_funds "bob" 250 300) /\
  accounts (snd (transfer_funds "bob" "alice" 300 two_accounts)) = accounts two_accounts /\
  snapshots (snd (transfer_funds "bob" "alice" 300 two_accounts)) = snapshots two_accounts /\
  issued (snd (transfer_funds "bob" "alice" 300 two_accounts)) =
    issued two_accounts ++ [SelectBalance "bob"].
Proof.
  apply (transfer_funds_insufficient "bob" "alice" 300 250 two_accounts).
  - vm_compute. reflexivity.
  - lia.
Defined.

Lemma transfer_funds_moves_amount_witness :
  fst (transfer_funds "alice" "bob" 100 two_accounts) = Returned tt /\
  issued (snd (transfer_funds "alice" "bob" 100 two_accounts)) =
    issued two_accounts
    ++ [SelectBalance "alice"; UpdateBalanceMinus 100 "alice"; UpdateBalancePlus 100 "bob"] /\
  snapshots (snd (transfer_funds "alice" "bob" 100 two_accounts)) = snapshots two_accounts /\
  accounts (snd (transfer_funds "alice" "bob" 100 two_accounts)) !! "alice"
    = Some (Some (1000 - 100)) /\
  (forall credit, accounts two_accounts !! "bob" = Some (Some credit) ->
     accounts (snd (transfer_funds "alice" "bob" 100 two_accounts)) !! "bob"
     = Some (Some (credit + 100))) /\
  (forall id, id <> "alice" -> id <> "bob" ->
     accounts (snd (transfer_funds "alice" "bob" 100 two_accounts)) !! id
     = accounts two_accounts !! id).
Proof.
  apply (transfer_funds_moves_amount "alice" "bob" 100 1000 two_accounts).
  - vm_compute. reflexivity.
  - lia.
  - discriminate.
  - reflexivity.
  - reflexivity.
  - vm_compute. reflexivity.
Defined.

Lemma run_transaction_transfer_insufficient_witness :
  fst (run_transaction (transfer_funds "bob" "alice" 300) (fun _ => 0%Q) 3
         (World two_accounts 0%nat [])) =
    Raised (insufficient_funds "bob" 250 300) /\
  log (snd (run_transaction (transfer_funds "bob" "alice" 300) (fun _ => 0%Q) 3
              (World two_accounts 0%nat []))) =
    [] ++ [TxEnter; CallOp 1 (Raised (insufficient_funds "bob" 250 300));
           LogDebug (GotError (insufficient_funds "bob" 250 300));
           LogDebug NonSerializationBranch; TxAbort] /\
  accounts (conn (snd (run_transaction (transfer_funds "bob" "alice" 300) (fun _ => 0%Q) 3
                         (World two_accounts 0%nat [])))) =
    accounts two_accounts /\
  snapshots (conn (snd (run_transaction (transfer_funds "bob" "alice" 300) (fun _ => 0%Q) 3
                          (World two_accounts 0%nat [])))) =
    snapshots two_accounts.
Proof.
  apply (run_transaction_transfer_insufficient (fun _ => 0%Q) 3 "bob" "alice" 300 250
           (World two_accounts 0%nat [])).
  - lia.
  - vm_compute. reflexivity.
  - lia.
Defined.

Lemma run_transaction_transfer_commits_witness :
  fst (run_transaction (transfer_funds "alice" "bob" 100) (fun _ => 0%Q) 3
         (World two_accounts 0%nat [])) = Returned tt /\
  log (snd (run_transaction (transfer_funds "alice" "bob" 100) (fun _ => 0%Q) 3
              (World two_accounts 0%nat []))) =
    [] ++ [TxEnter; CallOp 1 (Returned tt); TxCommit] /\
  accounts (conn (snd (run_transaction (transfer_funds "alice" "bob" 100) (fun _ => 0%Q) 3
                         (World two_accounts 0%nat []))))
    !! "alice" = Some (Some (1000 - 100)) /\
  (forall credit, accounts two_accounts !! "bob" = Some (Some credit) ->
     accounts (conn (snd (run_transaction (transfer_funds "alice" "bob" 100) (fun _ => 0%Q) 3
                            (World two_accounts 0%nat []))))
       !! "bob" = Some (Some (credit + 100))) /\
  snapshots (conn (snd (run_transaction (transfer_funds "alice" "bob" 100) (fun _ => 0%Q) 3
                          (World two_accounts 0%nat [])))) =
    snapshots two_accounts.
Proof.
  apply (run_transaction_transfer_commits (fun _ => 0%Q) 3 "alice" "bob" 100 1000
           (World two_accounts 0%nat [])).
  - lia.
  - vm_compute. reflexivity.
  - lia.
  - discriminate.
  - reflexivity.
  - reflexivity.
  - vm_compute. reflexivity.
Defined.

Lemma transfer_funds_conserves_total_witness :
  fst (transfer_funds "alice" "bob" 100 two_accounts) = Returned tt /\
  total_balance (accounts (snd (transfer_funds "alice" "bob" 100 two_accounts))) =
    total_balance (accounts two_accounts).
Proof.
  apply (transfer_funds_conserves_total "alice" "bob" 100 1000 250 two_accounts).
  - vm_compute. reflexivity.
  - vm_compute. reflexivity.
  - lia.
  - reflexivity.
  - reflexivity.
  - reflexivity.
Defined.

Lemma transfer_funds_missing_to_witness :
  fst (transfer_funds "alice" "dave" 100 two_accounts) = Returned tt /\
  accounts (snd (transfer_funds "alice" "dave" 100 two_accounts)) !! "alice"
    = Some (Some (1000 - 100)) /\
  accounts (snd (transfer_funds "alice" "dave" 100 two_accounts)) !! "dave" = None /\
  total_balance (accounts (snd (transfer_funds "alice" "dave" 100 two_accounts))) =
    total_balance (accounts two_accounts) - 100.
Proof.
  apply (transfer_funds_missing_to "alice" "dave" 100 1000 two_accounts).
  - vm_compute. reflexivity.
  - vm_compute. reflexivity.
  - lia.
  - reflexivity.
  - reflexivity.
Defined.

Lemma transfer_funds_no_balance_witness :
  (exists msg, fst (transfer_funds "dave" "bob" 100 two_accounts) = Raised (TypeError msg)) /\
  accounts (snd (transfer_funds "dave" "bob" 100 two_accounts)) = accounts two_accounts /\
  issued (snd (transfer_funds "dave" "bob" 100 two_accounts))
    = issued two_accounts ++ [SelectBalance "dave"].
Proof.
  apply (transfer_funds_no_balance "dave" "bob" 100 two_accounts).
  left. vm_compute. reflexivity.
Defined.

Lemma transfer_funds_to_itself_witness :
  fst (transfer_funds "bob" "bob" 100 two_accounts) = Returned tt /\
  accounts (snd (transfer_funds "bob" "bob" 100 two_accounts)) = accounts two_accounts.
Proof.
  apply (transfer_funds_to_itself "bob" 100 250 two_accounts).
  - vm_compute. reflexivity.
  - lia.
  - reflexivity.
  - reflexivity.
  - reflexivity.
Defined.

Lemma transfer_funds_amount_out_of_range_witness :
  transfer_funds "alice" "bob" (-9223372036854775809) two_accounts =
  (Raised (invalid_argument (-9223372036854775809)),
   Connection (accounts two_accounts) (snapshots two_accounts)
     (issued two_accounts ++ [SelectBalance "alice"])).
Proof.
  apply (transfer_funds_amount_out_of_range "alice" "bob" (-9223372036854775809) 1000
           two_accounts).
  - vm_compute. reflexivity.
  - lia.
  - reflexivity.
Defined.

Lemma run_transaction_undoes_debit_witness :
  (fst (transfer_funds "alice" "bob" 100 (conn (World full_account 0%nat [])))
     = Raised integer_out_of_range /\
   accounts (snd (transfer_funds "alice" "bob" 100 (conn (World full_account 0%nat []))))
     !! "alice" = Some (Some (1000 - 100)) /\
   accounts (snd (transfer_funds "alice" "bob" 100 (conn (World full_account 0%nat []))))
     !! "bob" = Some (Some int_max)) /\
  (fst (run_transaction (transfer_funds "alice" "bob" 100) (fun _ => 0%Q) 3
          (World full_account 0%nat [])) = Raised integer_out_of_range /\
   accounts (conn (snd (run_transaction (transfer_funds "alice" "bob" 100) (fun _ => 0%Q) 3
                          (World full_account 0%nat []))))
     = accounts (conn (World full_account 0%nat [])) /\
   snapshots (conn (snd (run_transaction (transfer_funds "alice" "bob" 100) (fun _ => 0%Q) 3
                           (World full_account 0%nat []))))
     = snapshots (conn (World full_account 0%nat [])) /\
   log (snd (run_transaction (transfer_funds "alice" "bob" 100) (fun _ => 0%Q) 3
               (World full_account 0%nat []))) =
     [] ++ [TxEnter; CallOp 1 (Raised integer_out_of_range);
            LogDebug (GotError integer_out_of_range);
            LogDebug NonSerializationBranch; TxAbort]).
Proof.
  apply (run_transaction_undoes_debit (fun _ => 0%Q) 3 "alice" "bob" 100 1000 int_max
           (World full_account 0%nat [])).
  - lia.
  - vm_compute. reflexivity.
  - vm_compute. reflexivity.
  - lia.
  - discriminate.
  - reflexivity.
  - reflexivity.
  - reflexivity.
Defined.

Lemma run_transaction_atomic_witness :
  snapshots (conn (snd (run_transaction (transfer_funds "alice" "bob" 100) (fun _ => 0%Q) 3
                          (World full_account 0%nat [])))) = snapshots full_account /\
  (forall e,
     fst (run_transaction (transfer_funds "alice" "bob" 100) (fun _ => 0%Q) 3
            (World full_account 0%nat [])) = Raised e ->
     accounts (conn (snd (run_transaction (transfer_funds "alice" "bob" 100) (fun _ => 0%Q) 3
                            (World full_account 0%nat [])))) = accounts full_account).
Proof.
  apply (run_transaction_atomic (transfer_funds "alice" "bob" 100) (fun _ => 0%Q) 3
           (World full_account 0%nat [])).
  apply transfer_funds_keeps_snapshots.
Defined.

(** ** The rest of the program *)

Lemma create_accounts_rows_witness :
  fst (create_accounts "id-1" "id-2" two_accounts) = ["id-1"; "id-2"] /\
  accounts (snd (create_accounts "id-1" "id-2" two_accounts)) !! "id-1" = Some (Some 1000) /\
  accounts (snd (create_accounts "id-1" "id-2" two_accounts)) !! "id-2" = Some (Some 250) /\
  (forall id, id <> "id-1" -> id <> "id-2" ->
     accounts (snd (create_accounts "id-1" "id-2" two_accounts)) !! id
     = accounts two_accounts !! id) /\
  (accounts two_accounts !! "id-1" = None -> accounts two_accounts !! "id-2" = None ->
     size (accounts (snd (create_accounts "id-1" "id-2" two_accounts)))
       = S (S (size (accounts two_accounts))) /\
     total_balance (accounts (snd (create_accounts "id-1" "id-2" two_accounts))) =
       total_balance (accounts two_accounts) + 1250).
Proof.
  apply (create_accounts_rows "id-1" "id-2" two_accounts).
  discriminate.
Defined.

Lemma print_balances_lines_witness :
  print_balances "Wed Nov  4 10:00:00 2026" two_accounts [] =
    (Returned tt,
     [] ++ balances_header "Wed Nov  4 10:00:00 2026" :: balance_lines (accounts two_accounts)) /\
  length (balance_lines (accounts two_accounts)) = size (accounts two_accounts).
Proof.
  apply (print_balances_lines "Wed Nov  4 10:00:00 2026" two_accounts []).
  apply no_null_two_accounts.
Defined.

Lemma print_balances_null_witness :
  exists msg printed,
    print_balances "Wed Nov  4 10:00:00 2026" null_account [] =
      (Raised (TypeError msg),
       [] ++ balances_header "Wed Nov  4 10:00:00 2026" :: printed) /\
    (length printed < size (accounts null_account))%nat.
Proof.
  apply (print_balances_null "Wed Nov  4 10:00:00 2026" null_account [] "carol").
  vm_compute. reflexivity.
Defined.

Lemma main_transfers_and_cleans_up_witness :
  main connect_fresh "id-1" "id-2" "Wed Nov  4 10:00:00 2026" "Wed Nov  4 10:00:01 2026"
    (fun _ => 0%Q) (Cmdline false (Some "postgresql://root@localhost:26257/defaultdb")) ∅ =
  (Returned tt,
   Process
     (Some (Connection ∅ (snapshots (Connection ∅ [] []))
              (issued (Connection ∅ [] [])
               ++ [SelectBalance "id-1"; UpdateBalanceMinus 100 "id-1";
                   UpdateBalancePlus 100 "id-2"])))
     (balances_header "Wed Nov  4 10:00:00 2026"
      :: balance_lines (<["id-2" := Some 250]>
                          (<["id-1" := Some 1000]> (accounts (Connection ∅ [] []))))
      ++ balances_header "Wed Nov  4 10:00:01 2026"
      :: balance_lines (<["id-2" := Some 350]>
                          (<["id-1" := Some 900]> (accounts (Connection ∅ [] [])))))
     []
     [TxEnter; CallOp 1 (Returned tt); TxCommit]
     true).
Proof.
  apply (main_transfers_and_cleans_up connect_fresh "id-1" "id-2"
           "Wed Nov  4 10:00:00 2026" "Wed Nov  4 10:00:01 2026" (fun _ => 0%Q)
           (Cmdline false (Some "postgresql://root@localhost:26257/defaultdb")) ∅
           "postgresql://root@localhost:26257/defaultdb" (Connection ∅ [] [])).
  - left. reflexivity.
  - reflexivity.
  - discriminate.
  - apply no_null_empty.
Defined.

Lemma main_connect_fails_witness :
  exists msg,
    main connect_refused "id-1" "id-2" "Wed Nov  4 10:00:00 2026" "Wed Nov  4 10:00:01 2026"
      (fun _ => 0%Q) (Cmdline false None)
      (<["DATABASE_URL" := "postgresql://root@localhost:26257/defaultdb"]> ∅) =
    (Raised (OtherException "UnboundLocalError" msg),
     Process None []
       [FatalMessage "database connection failed";
        FatalException (OtherException "ConnectionRefusedError" "connection refused")]
       [] false).
Proof.
  apply (main_connect_fails connect_refused "id-1" "id-2"
           "Wed Nov  4 10:00:00 2026" "Wed Nov  4 10:00:01 2026" (fun _ => 0%Q)
           (Cmdline false None)
           (<["DATABASE_URL" := "postgresql://root@localhost:26257/defaultdb"]> ∅)
           "postgresql://root@localhost:26257/defaultdb"
           (OtherException "ConnectionRefusedError" "connection refused")).
  - right. split; [reflexivity | vm_compute; reflexivity].
  - reflexivity.
  - reflexivity.
Defined.

Lemma main_without_dsn_witness :
  main connect_fresh "id-1" "id-2" "Wed Nov  4 10:00:00 2026" "Wed Nov  4 10:00:01 2026"
    (fun _ => 0%Q) (Cmdline true None) ∅ =
  (Raised (BaseOnly "SystemExit"), Process None [] [] [] false).
Proof.
  apply (main_without_dsn connect_fresh "id-1" "id-2"
           "Wed Nov  4 10:00:00 2026" "Wed Nov  4 10:00:01 2026" (fun _ => 0%Q)
           (Cmdline true None) ∅).
  - reflexivity.
  - vm_compute. reflexivity.
Defined.

Lemma main_reports_failure_and_keeps_accounts_witness :
  exists msg printed,
    main connect_null "id-1" "id-2" "Wed Nov  4 10:00:00 2026" "Wed Nov  4 10:00:01 2026"
      (fun _ => 0%Q) (Cmdline false (Some "postgresql://root@localhost:26257/defaultdb")) ∅ =
    (Returned tt,
     Process
       (Some (Connection (<["id-2" := Some 250]> (<["id-1" := Some 1000]> (accounts null_account)))
                (snapshots null_account) (issued null_account)))
       (balances_header "Wed Nov  4 10:00:00 2026" :: printed)
       [FatalMessage "database connection failed"; FatalException (TypeError msg)]
       []
       true) /\
    (length printed
     < size (<["id-2" := Some 250%Z]> (<["id-1" := Some 1000%Z]> (accounts null_account))))%nat.
Proof.
  apply (main_reports_failure_and_keeps_accounts connect_null "id-1" "id-2"
           "Wed Nov  4 10:00:00 2026" "Wed Nov  4 10:00:01 2026" (fun _ => 0%Q)
           (Cmdline false (Some "postgresql://root@localhost:26257/defaultdb")) ∅
           "postgresql://root@localhost:26257/defaultdb" null_account "carol").
  - left. reflexivity.
  - reflexivity.
  - vm_compute. reflexivity.
  - discriminate.
  - discriminate.
Defined.
